(** * chillax-server: track listings, track mutations and the user avatar

    A shallow embedding of the request handlers of the track controller
    ([getTracks], [getTracksInPlaylist], [getTracksLiked],
    [getTracksByAuthor], [postTrack], [putTrackLike], [deleteTrack]) and of
    the [gravatar] method of the user model, followed by the properties
    the specification states about them.

    Collections are lists of documents in natural order.  A handler that
    writes is a function from the database to an outcome and the database
    it leaves behind; a handler that only reads returns its outcome. *)

From Stdlib Require Import ZArith String Ascii List Lia.
From stdpp Require Import gmap strings list sorting pretty.
Import ListNotations.
Open Scope Z_scope.
Set Warnings "-notation-for-abbreviation,-register-all".

(** ** MD5, as [crypto.createHash('md5')] computes it (RFC 1321) *)

Module Md5.

Definition word (x : Z) : Z := x mod 2^32.
Definition add32 (x y : Z) : Z := word (x + y).
Definition not32 (x : Z) : Z := 2^32 - 1 - x.
Definition rotl32 (x : Z) (c : Z) : Z :=
  word (Z.lor (Z.shiftl x c) (Z.shiftr x (32 - c))).

Definition K : list Z :=
  [ 0xd76aa478; 0xe8c7b756; 0x242070db; 0xc1bdceee;
    0xf57c0faf; 0x4787c62a; 0xa8304613; 0xfd469501;
    0x698098d8; 0x8b44f7af; 0xffff5bb1; 0x895cd7be;
    0x6b901122; 0xfd987193; 0xa679438e; 0x49b40821;
    0xf61e2562; 0xc040b340; 0x265e5a51; 0xe9b6c7aa;
    0xd62f105d; 0x02441453; 0xd8a1e681; 0xe7d3fbc8;
    0x21e1cde6; 0xc33707d6; 0xf4d50d87; 0x455a14ed;
    0xa9e3e905; 0xfcefa3f8; 0x676f02d9; 0x8d2a4c8a;
    0xfffa3942; 0x8771f681; 0x6d9d6122; 0xfde5380c;
    0xa4beea44; 0x4bdecfa9; 0xf6bb4b60; 0xbebfbc70;
    0x289b7ec6; 0xeaa127fa; 0xd4ef3085; 0x04881d05;
    0xd9d4d039; 0xe6db99e5; 0x1fa27cf8; 0xc4ac5665;
    0xf4292244; 0x432aff97; 0xab9423a7; 0xfc93a039;
    0x655b59c3; 0x8f0ccc92; 0xffeff47d; 0x85845dd1;
    0x6fa87e4f; 0xfe2ce6e0; 0xa3014314; 0x4e0811a1;
    0xf7537e82; 0xbd3af235; 0x2ad7d2bb; 0xeb86d391 ].

Definition shifts : list Z :=
  [ 7; 12; 17; 22; 7; 12; 17; 22; 7; 12; 17; 22; 7; 12; 17; 22;
    5; 9; 14; 20; 5; 9; 14; 20; 5; 9; 14; 20; 5; 9; 14; 20;
    4; 11; 16; 23; 4; 11; 16; 23; 4; 11; 16; 23; 4; 11; 16; 23;
    6; 10; 15; 21; 6; 10; 15; 21; 6; 10; 15; 21; 6; 10; 15; 21 ].

(** The bytes hashed are the bytes of the string, its UTF-8 encoding. *)
Definition bytes_of_string (s : string) : list Z :=
  map (fun c => Z.of_N (N_of_ascii c)) (list_ascii_of_string s).

Fixpoint le_bytes (n : nat) (x : Z) : list Z :=
  match n with
  | O => []
  | S n' => (x mod 256) :: le_bytes n' (x / 256)
  end.

Definition pad (msg : list Z) : list Z :=
  let len := Z.of_nat (length msg) in
  let zeros := Z.to_nat ((55 - len) mod 64) in
  msg ++ [0x80] ++ repeat 0 zeros ++ le_bytes 8 ((8 * len) mod 2^64).

Fixpoint le_word (bs : list Z) : Z :=
  match bs with
  | [] => 0
  | b :: bs' => b + 256 * le_word bs'
  end.

Fixpoint words (n : nat) (bs : list Z) : list Z :=
  match n with
  | O => []
  | S n' => le_word (firstn 4 bs) :: words n' (skipn 4 bs)
  end.

Record state := St { sa : Z; sb : Z; sc : Z; sd : Z }.

Definition init : state := St 0x67452301 0xefcdab89 0x98badcfe 0x10325476.

Definition round (M : list Z) (st : state) (i : Z) : state :=
  let '(St a b c d) := st in
  let '(f, g) :=
    if i <? 16 then (Z.lor (Z.land b c) (Z.land (not32 b) d), i)
    else if i <? 32 then
      (Z.lor (Z.land d b) (Z.land (not32 d) c), (5 * i + 1) mod 16)
    else if i <? 48 then (Z.lxor (Z.lxor b c) d, (3 * i + 5) mod 16)
    else (Z.lxor c (Z.lor b (not32 d)), (7 * i) mod 16) in
  let n := Z.to_nat i in
  let f' := add32 (add32 (add32 f a) (nth n K 0)) (nth (Z.to_nat g) M 0) in
  St d (add32 b (rotl32 f' (nth n shifts 0))) b c.

Definition block (st : state) (bs : list Z) : state :=
  let M := words 16 bs in
  let st' := fold_left (round M) (map Z.of_nat (seq 0 64)) st in
  St (add32 (sa st) (sa st')) (add32 (sb st) (sb st'))
     (add32 (sc st) (sc st')) (add32 (sd st) (sd st')).

Fixpoint blocks (n : nat) (st : state) (bs : list Z) : state :=
  match n with
  | O => st
  | S n' => blocks n' (block st (firstn 64 bs)) (skipn 64 bs)
  end.

Definition digest (msg : list Z) : list Z :=
  let p := pad msg in
  let st := blocks (length p / 64) init p in
  le_bytes 4 (sa st) ++ le_bytes 4 (sb st)
    ++ le_bytes 4 (sc st) ++ le_bytes 4 (sd st).

Definition hexdigit (x : Z) : ascii :=
  nth (Z.to_nat x) (list_ascii_of_string "0123456789abcdef") "0"%char.

Definition hex (bs : list Z) : string :=
  string_of_list_ascii
    (flat_map (fun b => [hexdigit (b / 16); hexdigit (b mod 16)]) bs).

(** [crypto.createHash('md5').update(s).digest('hex')] *)
Definition md5_hex (s : string) : string := hex (digest (bytes_of_string s)).

End Md5.

(** ** Stored values *)

Notation ObjectId := N (only parsing).

(** A value of the document store. *)
Inductive value :=
| VNull
| VBool (b : bool)
| VNum (z : Z)
| VStr (s : string)
| VId (i : ObjectId)
| VDate (t : Z)
| VArr (l : list value)
| VDoc (d : list (string * value)).

(** A raw document of a collection: field name to value. *)
Notation document := (gmap string value) (only parsing).

Fixpoint value_eqb (a b : value) : bool :=
  match a, b with
  | VNull, VNull => true
  | VBool x, VBool y => Bool.eqb x y
  | VNum x, VNum y => Z.eqb x y
  | VStr x, VStr y => String.eqb x y
  | VId x, VId y => N.eqb x y
  | VDate x, VDate y => Z.eqb x y
  | VArr l, VArr l' =>
      (fix go (l l' : list value) : bool :=
         match l, l' with
         | [], [] => true
         | x :: l, y :: l' => value_eqb x y && go l l'
         | _, _ => false
         end) l l'
  | VDoc d, VDoc d' =>
      (fix go (d d' : list (string * value)) : bool :=
         match d, d' with
         | [], [] => true
         | (k, x) :: d, (k', y) :: d' =>
             String.eqb k k' && value_eqb x y && go d d'
         | _, _ => false
         end) d d'
  | _, _ => false
  end.

(** ** Outcomes of a handler *)

(** Modelled from the spec: util/error-handler is not among the sources;
    the specification describes [ApplicationError] as an error object
    carrying a message and an HTTP status code. *)
Record ApplicationError := { message : string; status : Z }.

(** The faults the store raises for a pipeline it rejects. *)
Inductive storage_fault := SkipNegative | LimitNotPositive.

(** [Json d] is [res.json({ data: d })]; [Throw e] is [throw e];
    [Fault f] is a rejection of the store's driver. *)
Inductive outcome (A : Type) :=
| Json (data : A)
| Throw (e : ApplicationError)
| Fault (f : storage_fault).
Arguments Json {A} data.
Arguments Throw {A} e.
Arguments Fault {A} f.

(** ** The models *)

Module User.

Record Profile := {
  name : option string;
  gender : option string;
  location : option string;
  website : option string;
  picture : option string
}.

(** [UserDocument] and [userSchema], with the identity and the two
    timestamps the schema option adds. *)
Record UserDocument := {
  _id : ObjectId;
  email : option string;
  password : option string;
  passwordResetToken : option string;
  passwordResetExpires : option Z;
  profile : Profile;
  followers : list ObjectId;
  createdAt : Z;
  updatedAt : Z
}.

(** Modelled from the spec: the middleware that sets [res.locals.user],
    and the [IUser] type of it, are not among the sources.  The
    specification describes the requester as a user identity with a role,
    administrator or not.  The handlers read the identity as [id], a
    string they convert, and as [_id], which they use as it is: [_id] is
    an ObjectId object when [res.locals.user] is a hydrated document, the
    shape that offers both [id] and [_id], and a string when it is a
    plain object; [hydrated] says which. *)
Record IUser := { id : ObjectId; role : string; hydrated : bool }.

Definition opt_field (k : string) (o : option value) : list (string * value) :=
  match o with
  | Some v => [(k, v)]
  | None => []
  end.

Definition profile_value (p : Profile) : value :=
  VDoc (opt_field "name" (VStr <$> name p)
        ++ opt_field "gender" (VStr <$> gender p)
        ++ opt_field "location" (VStr <$> location p)
        ++ opt_field "website" (VStr <$> website p)
        ++ opt_field "picture" (VStr <$> picture p)).

(** The document of the [users] collection that stores [u]. *)
Definition to_document (u : UserDocument) : document :=
  list_to_map
    ([("_id", VId (_id u))]
     ++ opt_field "email" (VStr <$> email u)
     ++ opt_field "password" (VStr <$> password u)
     ++ opt_field "passwordResetToken" (VStr <$> passwordResetToken u)
     ++ opt_field "passwordResetExpires" (VDate <$> passwordResetExpires u)
     ++ [("profile", profile_value (profile u));
         ("followers", VArr (VId <$> followers u));
         ("createdAt", VDate (createdAt u));
         ("updatedAt", VDate (updatedAt u))]).

(** [!this.email]: an absent email and the empty string are both falsy. *)
Definition no_email (e : option string) : bool :=
  match e with
  | None => true
  | Some s => String.eqb s ""
  end.

(** A number that is a safe integer, of magnitude at most 2^53 - 1: a
    template literal prints it by its decimal digits, with a minus sign
    when negative.  Other numbers print in other forms (a fraction, an
    exponent from 1e21, rounded digits above 2^53) and are not values of
    this type. *)
Record safe_integer := SafeInteger {
  int_value : Z;
  int_safe : Is_true (Z.abs int_value <=? 9007199254740991)
}.

(** [`${size}`] *)
Definition print (size : safe_integer) : string := pretty (int_value size).

(** The default size, 200. *)
Definition size_200 : safe_integer := SafeInteger 200 I.

(** [userSchema.methods.gravatar]; [size] is [None] when the argument is
    omitted, and the default 200 applies. *)
Definition gravatar (this : UserDocument) (size : option safe_integer)
    : string :=
  let size := default size_200 size in
  if no_email (email this) then
    "https://gravatar.com/avatar/?s=" +:+ print size +:+ "&d=retro"
  else
    let md5 := Md5.md5_hex (default "" (email this)) in
    "https://gravatar.com/avatar/" +:+ md5 +:+ "?s=" +:+ print size
      +:+ "&d=retro".

End User.

Module Track.

(** Modelled from the spec: models/Track is not among the sources.  A
    track has an identity, a name, an image URL, an owning author, an
    owning playlist, its likers and a creation time.  The aggregation
    stages rewrite [liked] and [author] and add [likedLength], so the
    record is parametric in the types of the first two, and
    [likedLength] is [None] while the field is absent. *)
Record doc (L A : Type) := Doc {
  _id : ObjectId;
  name : string;
  img : string;
  author : A;
  playlist : ObjectId;
  liked : L;
  likedLength : option nat;
  createdAt : Z
}.
Arguments Doc {L A}.
Arguments _id {L A}.
Arguments name {L A}.
Arguments img {L A}.
Arguments author {L A}.
Arguments playlist {L A}.
Arguments liked {L A}.
Arguments likedLength {L A}.
Arguments createdAt {L A}.

Definition set_liked {L L' A} (v : L') (d : doc L A) : doc L' A :=
  Doc (_id d) (name d) (img d) (author d) (playlist d) v
      (likedLength d) (createdAt d).

Definition set_likedLength {L A} (n : nat) (d : doc L A) : doc L A :=
  Doc (_id d) (name d) (img d) (author d) (playlist d) (liked d)
      (Some n) (createdAt d).

Definition set_author {L A A'} (v : A') (d : doc L A) : doc L A' :=
  Doc (_id d) (name d) (img d) v (playlist d) (liked d)
      (likedLength d) (createdAt d).

End Track.

(** A stored track: likers and author are references to users. *)
Notation ITrack := (Track.doc (list ObjectId) ObjectId) (only parsing).

Module Playlist.

(** Modelled from the spec: models/Playlist is not among the sources.  A
    playlist has an identity, an image URL and an ordered sequence of
    track references. *)
Record IPlaylist := {
  _id : ObjectId;
  img : string;
  tracks : list ObjectId
}.

End Playlist.

Notation IPlaylist := Playlist.IPlaylist (only parsing).

(** The database: the three collections, each in natural order. *)
Record Db := {
  db_tracks : list ITrack;
  db_playlists : list IPlaylist;
  db_users : list document
}.

(** ** Aggregation stages *)

Module Agg.

(** The expression [{ $in: [x, '$liked'] }]. *)
Definition expr_in (x : ObjectId) (arr : list ObjectId) : bool :=
  bool_decide (x ∈ arr).

(** The expression [{ $size: '$liked' }]. *)
Definition expr_size (arr : list ObjectId) : nat := length arr.

(** The query operator [{ field: { $in: vals } }]: the field matches when
    it equals one of [vals] or, being an array, holds an element that
    does.  In a query a string starting with a dollar sign is a string. *)
Definition query_in (vals : list value) (field : value) : bool :=
  existsb (value_eqb field) vals
  || match field with
     | VArr l => existsb (fun e => existsb (value_eqb e) vals) l
     | _ => false
     end.

(** [{ $match: ... }] *)
Definition match_stage {D} (p : D → bool) (docs : list D) : list D :=
  List.filter p docs.

(** [{ $addFields: ... }]: every new field is computed from the document
    that enters the stage. *)
Definition addFields {D D'} (f : D → D') (docs : list D) : list D' :=
  List.map f docs.

(** [{ $lookup: { from: 'users', localField: 'author',
      foreignField: '_id', as: 'author' } }] *)
Definition lookup_author {L} (users : list document)
    (docs : list (Track.doc L ObjectId)) : list (Track.doc L (list document)) :=
  List.map
    (fun d =>
       Track.set_author
         (List.filter
            (fun u : document =>
               match u !! "_id" with
               | Some v => value_eqb v (VId (Track.author d))
               | None => false
               end) users) d)
    docs.

(** [{ $project: { 'author.f': 0, ... } }]: each [f] of [fields] is
    removed from every element of the [author] array. *)
Definition project_author {L} (fields : list string)
    (docs : list (Track.doc L (list document)))
    : list (Track.doc L (list document)) :=
  List.map
    (fun d =>
       Track.set_author
         (List.map (fun u : document => foldr delete u fields)
            (Track.author d)) d)
    docs.

(** [{ $unwind: '$author' }]: one document per element of the array, none
    for an empty array. *)
Definition unwind_author {L} (docs : list (Track.doc L (list document)))
    : list (Track.doc L document) :=
  List.flat_map
    (fun d => List.map (fun u => Track.set_author u d) (Track.author d))
    docs.

(** Sort keys, compared as the store compares values of different types:
    an absent field first, then numbers, then booleans (false before
    true), then dates. *)
Inductive sortkey :=
| KMissing
| KNum (z : Z)
| KBool (b : bool)
| KDate (t : Z).

Definition key_code (k : sortkey) : Z * Z :=
  match k with
  | KMissing => (1, 0)
  | KNum z => (2, z)
  | KBool b => (8, if b then 1 else 0)
  | KDate t => (9, t)
  end.

Definition key_compare (a b : sortkey) : comparison :=
  match fst (key_code a) ?= fst (key_code b) with
  | Eq => snd (key_code a) ?= snd (key_code b)
  | c => c
  end.

(** [{ $sort: { k1: d1, k2: d2, ... } }]: the keys in order, each with its
    direction, [1] ascending and [-1] descending. *)
Fixpoint sort_compare {D} (spec : list ((D → sortkey) * Z)) (a b : D)
    : comparison :=
  match spec with
  | [] => Eq
  | (key, dir) :: spec' =>
      match (if dir <? 0 then key_compare (key b) (key a)
             else key_compare (key a) (key b)) with
      | Eq => sort_compare spec' a b
      | c => c
      end
  end.

Definition sort_le {D} (spec : list ((D → sortkey) * Z)) (a b : D) : Prop :=
  sort_compare spec a b ≠ Gt.

#[global] Instance sort_le_dec {D} (spec : list ((D → sortkey) * Z)) (a b : D) :
  Decision (sort_le spec a b).
Proof. unfold sort_le. destruct (sort_compare spec a b); [left|left|right]; congruence. Defined.

Definition sort_stage {D} (spec : list ((D → sortkey) * Z)) (docs : list D)
    : list D :=
  merge_sort (sort_le spec) docs.

(** [{ $skip: n }]: the store rejects a negative argument. *)
Definition skip_stage {D} (n : Z) (docs : list D) : outcome (list D) :=
  if n <? 0 then Fault SkipNegative else Json (drop (Z.to_nat n) docs).

(** [{ $limit: n }]: the store rejects an argument that is not positive. *)
Definition limit_stage {D} (n : Z) (docs : list D) : outcome (list D) :=
  if n <=? 0 then Fault LimitNotPositive else Json (take (Z.to_nat n) docs).

(** Stages that can be rejected are chained on success. *)
Definition and_then {A B} (o : outcome A) (k : A → outcome B) : outcome B :=
  match o with
  | Json a => k a
  | Throw e => Throw e
  | Fault f => Fault f
  end.

(** The sort keys of the listings. *)
Definition by_likedLength {L A} (d : Track.doc L A) : sortkey :=
  match Track.likedLength d with
  | Some n => KNum (Z.of_nat n)
  | None => KMissing
  end.

Definition by_liked {A} (d : Track.doc bool A) : sortkey :=
  KBool (Track.liked d).

Definition by_createdAt {L A} (d : Track.doc L A) : sortkey :=
  KDate (Track.createdAt d).

End Agg.

Notation "x |> f" := (f x) (at level 68, left associativity, only parsing).

(** ** The track controller: listings *)

(** [req.query]: [page] and [limit] are [None] when absent, and otherwise
    the number the arithmetic of the handler coerces them to. *)
Record query := { page : option Z; limit : option Z }.

(** The five fields every listing removes from the embedded author. *)
Definition hidden_author_fields : list string :=
  ["likedPlaylists"; "likedTracks"; "followers"; "password"; "email"].

(** GET /tracks *)
Definition getTracks (q : query) (user : User.IUser) (db : Db)
    : outcome (list (Track.doc bool document)) :=
  let page := default 1 (page q) in
  let limit := default 10 (limit q) in
  let skip := (page - 1) * limit in
  Agg.and_then
    (Agg.and_then
       (Json
          (db_tracks db
           |> Agg.addFields (fun d =>
                Track.set_likedLength (Agg.expr_size (Track.liked d))
                  (Track.set_liked
                     (Agg.expr_in (User.id user) (Track.liked d)) d))
           |> Agg.lookup_author (db_users db)
           |> Agg.project_author hidden_author_fields
           |> Agg.unwind_author
           |> Agg.sort_stage
                [ (Agg.by_likedLength, -1);
                  (Agg.by_liked, -1);
                  (Agg.by_createdAt, -1) ]))
       (Agg.skip_stage skip))
    (Agg.limit_stage limit).

(** GET /tracks/playlist/:id *)
Definition getTracksInPlaylist (q : query) (id : ObjectId) (user : User.IUser)
    (db : Db) : outcome (list (Track.doc bool document)) :=
  let page := default 1 (page q) in
  let limit := default 10 (limit q) in
  let skip := (page - 1) * limit in
  Agg.and_then
    (Agg.and_then
       (Json
          (db_tracks db
           |> Agg.match_stage (fun d => N.eqb (Track.playlist d) id)
           |> Agg.addFields (fun d =>
                Track.set_likedLength (Agg.expr_size (Track.liked d))
                  (Track.set_liked
                     (Agg.expr_in (User.id user) (Track.liked d)) d))
           |> Agg.lookup_author (db_users db)
           |> Agg.project_author hidden_author_fields
           |> Agg.unwind_author
           |> Agg.sort_stage
                [ (Agg.by_likedLength, -1);
                  (Agg.by_liked, -1);
                  (Agg.by_createdAt, -1) ]))
       (Agg.skip_stage skip))
    (Agg.limit_stage limit).

(** GET /tracks/liked *)
Definition getTracksLiked (q : query) (user : User.IUser) (db : Db)
    : outcome (list (Track.doc bool document)) :=
  let page := default 1 (page q) in
  let limit := default 10 (limit q) in
  let skip := (page - 1) * limit in
  Agg.and_then
    (Agg.and_then
       (Json
          (db_tracks db
           |> Agg.match_stage (fun d =>
                Agg.query_in [VId (User.id user); VStr "$liked"]
                  (VArr (VId <$> Track.liked d)))
           |> Agg.addFields (Track.set_liked true)
           |> Agg.lookup_author (db_users db)
           |> Agg.project_author hidden_author_fields
           |> Agg.unwind_author
           |> Agg.sort_stage [ (Agg.by_createdAt, -1) ]))
       (Agg.skip_stage skip))
    (Agg.limit_stage limit).

(** GET /tracks/author/:id *)
Definition getTracksByAuthor (q : query) (id : ObjectId) (user : User.IUser)
    (db : Db) : outcome (list (Track.doc bool document)) :=
  let page := default 1 (page q) in
  let limit := default 10 (limit q) in
  let skip := (page - 1) * limit in
  Agg.and_then
    (Agg.and_then
       (Json
          (db_tracks db
           |> Agg.match_stage (fun d => N.eqb (Track.author d) id)
           |> Agg.lookup_author (db_users db)
           |> Agg.project_author hidden_author_fields
           |> Agg.unwind_author
           |> Agg.addFields (fun d =>
                Track.set_likedLength (Agg.expr_size (Track.liked d))
                  (Track.set_liked
                     (Agg.expr_in (User.id user) (Track.liked d)) d))
           |> Agg.sort_stage
                [ (Agg.by_likedLength, -1);
                  (Agg.by_liked, -1);
                  (Agg.by_createdAt, -1) ]))
       (Agg.skip_stage skip))
    (Agg.limit_stage limit).

(** ** The track controller: mutations *)

(** A handler that writes: the outcome and the database left behind.  A
    [throw] keeps whatever was written before it. *)
Definition M (A : Type) : Type := Db → outcome A * Db.

Definition ret {A} (a : A) : M A := fun db => (Json a, db).

Definition throw {A} (e : ApplicationError) : M A := fun db => (Throw e, db).

Definition bind {A B} (m : M A) (k : A → M B) : M B :=
  fun db =>
    match m db with
    | (Json a, db') => k a db'
    | (Throw e, db') => (Throw e, db')
    | (Fault f, db') => (Fault f, db')
    end.

Notation "'await' x ':=' m 'in' k" := (bind m (fun x => k))
  (at level 10, x name, m at level 100, k at level 200, only parsing).

(** What the request brings besides its parameters: the clock and the
    identity the driver generates for a created document. *)
Record env := { now : Z; newId : ObjectId }.

Section Collections.
Context {D : Type} (id_of : D → ObjectId).

(** [Model.findById(id)]: the first document with that identity. *)
Definition findById (id : ObjectId) (c : list D) : option D :=
  List.find (fun d => N.eqb (id_of d) id) c.

(** [doc.updateOne(update)]: the first document with that identity is
    rewritten. *)
Fixpoint updateOne (id : ObjectId) (f : D → D) (c : list D) : list D :=
  match c with
  | [] => []
  | d :: c' => if N.eqb (id_of d) id then f d :: c' else d :: updateOne id f c'
  end.

(** [doc.remove()]: the first document with that identity is deleted. *)
Fixpoint removeOne (id : ObjectId) (c : list D) : list D :=
  match c with
  | [] => []
  | d :: c' => if N.eqb (id_of d) id then c' else d :: removeOne id c'
  end.

End Collections.

(** The update operator [{ $pull: { liked: x } }]: every occurrence goes. *)
Definition pull (x : ObjectId) (arr : list ObjectId) : list ObjectId :=
  List.filter (fun y => negb (N.eqb y x)) arr.

(** The update operator [{ $addToSet: { liked: x } }]. *)
Definition addToSet (x : ObjectId) (arr : list ObjectId) : list ObjectId :=
  if bool_decide (x ∈ arr) then arr else arr ++ [x].

(** The update operator [{ $push: { tracks: x } }]. *)
Definition push (x : ObjectId) (arr : list ObjectId) : list ObjectId :=
  arr ++ [x].

Definition Track_findById (id : ObjectId) : M (option ITrack) :=
  fun db => (Json (findById Track._id id (db_tracks db)), db).

Definition Playlist_findById (id : ObjectId) : M (option IPlaylist) :=
  fun db => (Json (findById Playlist._id id (db_playlists db)), db).

(** [Track.create({ name, img, author, playlist, liked })]: the document
    gets a generated identity and its creation time, and is stored. *)
Definition Track_create (e : env) (name img : string) (author playlist : ObjectId)
    (liked : list ObjectId) : M ITrack :=
  fun db =>
    let track : ITrack :=
      Track.Doc (newId e) name img author playlist liked None (now e) in
    (Json track,
     {| db_tracks := db_tracks db ++ [track];
        db_playlists := db_playlists db;
        db_users := db_users db |}).

Definition Playlist_update (p : IPlaylist)
    (f : list ObjectId → list ObjectId) : M unit :=
  fun db =>
    (Json tt,
     {| db_tracks := db_tracks db;
        db_playlists :=
          updateOne Playlist._id (Playlist._id p)
            (fun p' =>
               {| Playlist._id := Playlist._id p';
                  Playlist.img := Playlist.img p';
                  Playlist.tracks := f (Playlist.tracks p') |})
            (db_playlists db);
        db_users := db_users db |}).

Definition Track_updateOne (t : ITrack)
    (f : list ObjectId → list ObjectId) : M unit :=
  fun db =>
    (Json tt,
     {| db_tracks :=
          updateOne Track._id (Track._id t)
            (fun t' => Track.set_liked (f (Track.liked t')) t')
            (db_tracks db);
        db_playlists := db_playlists db;
        db_users := db_users db |}).

Definition Track_remove (t : ITrack) : M unit :=
  fun db =>
    (Json tt,
     {| db_tracks := removeOne Track._id (Track._id t) (db_tracks db);
        db_playlists := db_playlists db;
        db_users := db_users db |}).

(** [isEmpty] of the validator package, with its default options. *)
Definition isEmpty (s : string) : bool := Nat.eqb (String.length s) 0.

(** [!name] for the [name] of the request body: absent, or a string. *)
Definition falsy (name : option string) : bool :=
  match name with
  | None => true
  | Some s => String.eqb s ""
  end.

(** POST /track/:id *)
Definition postTrack (e : env) (id : ObjectId) (user : User.IUser)
    (name : option string) : M ITrack :=
  let errors :=
    if falsy name || isEmpty (default "" name)
    then ["Name is not valid"] else [] in
  match errors with
  | err :: _ => throw {| message := err; status := 404 |}
  | [] =>
      await playlist := Playlist_findById id in
      match playlist with
      | None => throw {| message := "Playlist not found"; status := 404 |}
      | Some playlist =>
          await track :=
            Track_create e (default "" name) (Playlist.img playlist)
              (User.id user) (Playlist._id playlist) [] in
          await updated := Playlist_update playlist (push (Track._id track)) in
          ret track
      end
  end.

(** PUT /track/like/:id *)
Definition putTrackLike (id : ObjectId) (user : User.IUser) : M bool :=
  await track := Track_findById id in
  match track with
  | None => throw {| message := "Track not found"; status := 404 |}
  | Some track =>
      let liked := bool_decide (User.id user ∈ Track.liked track) in
      await updated :=
        (if liked
         then Track_updateOne track (pull (User.id user))
         else Track_updateOne track (addToSet (User.id user))) in
      ret (negb liked)
  end.

(** [author != user._id], for the author of a track read from the store,
    an ObjectId object.  Two objects are unequal unless they are one and
    the same object, which the author of a track just read and the [_id]
    of the requester's document never are; an object and a string are
    compared through the string of the object. *)
Definition loose_neq (author : ObjectId) (user : User.IUser) : bool :=
  if User.hydrated user then true
  else negb (N.eqb author (User.id user)).

(** DELETE /track/:id *)
Definition deleteTrack (id : ObjectId) (user : User.IUser) : M ITrack :=
  await track := Track_findById id in
  match track with
  | None => throw {| message := "Playlist not found"; status := 404 |}
  | Some track =>
      if loose_neq (Track.author track) user
         && negb (String.eqb (User.role user) "ADMIN")
      then throw {| message := "Dont have permission"; status := 403 |}
      else
        await removed := Track_remove track in
        ret track
  end.

(** ** The four scopes of the listing, as the specification tabulates them *)

Inductive scope :=
| Global
| InPlaylist (id : ObjectId)
| LikedOnly
| ByAuthor (id : ObjectId).

(** The handler that serves a scope. *)
Definition listing (s : scope) (q : query) (user : User.IUser) (db : Db)
    : outcome (list (Track.doc bool document)) :=
  match s with
  | Global => getTracks q user db
  | InPlaylist id => getTracksInPlaylist q id user db
  | LikedOnly => getTracksLiked q user db
  | ByAuthor id => getTracksByAuthor q id user db
  end.

(** The filter of a scope. *)
Definition scope_filter (s : scope) (user : User.IUser) (t : ITrack) : bool :=
  match s with
  | Global => true
  | InPlaylist id => bool_decide (Track.playlist t = id)
  | LikedOnly => bool_decide (User.id user ∈ Track.liked t)
  | ByAuthor id => bool_decide (Track.author t = id)
  end.

(** The owner of a track among the stored users. *)
Definition owns (t : ITrack) (u : document) : bool :=
  match u !! "_id" with
  | Some v => value_eqb v (VId (Track.author t))
  | None => false
  end.

(** The summary of a user document that a listing embeds. *)
Definition summary (u : document) : document :=
  foldr delete u hidden_author_fields.

(** The record a listing returns for a stored track and its owner. *)
Definition row (s : scope) (user : User.IUser) (t : ITrack) (u : document)
    : Track.doc bool document :=
  match s with
  | LikedOnly =>
      Track.Doc (Track._id t) (Track.name t) (Track.img t) (summary u)
        (Track.playlist t) true (Track.likedLength t) (Track.createdAt t)
  | _ =>
      Track.Doc (Track._id t) (Track.name t) (Track.img t) (summary u)
        (Track.playlist t) (bool_decide (User.id user ∈ Track.liked t))
        (Some (length (Track.liked t))) (Track.createdAt t)
  end.

(** The tracks of a scope with their owners, in natural order. *)
Definition eligible (s : scope) (user : User.IUser) (db : Db)
    : list (Track.doc bool document) :=
  List.flat_map
    (fun t => List.map (row s user t) (List.filter (owns t) (db_users db)))
    (List.filter (scope_filter s user) (db_tracks db)).

(** The ranking of a scope. *)
Definition ranking (s : scope)
    : list ((Track.doc bool document → Agg.sortkey) * Z) :=
  match s with
  | LikedOnly => [ (Agg.by_createdAt, -1) ]
  | _ => [ (Agg.by_likedLength, -1); (Agg.by_liked, -1);
           (Agg.by_createdAt, -1) ]
  end.

(** The full filtered and sorted sequence of a scope. *)
Definition full_sequence (s : scope) (user : User.IUser) (db : Db)
    : list (Track.doc bool document) :=
  Agg.sort_stage (ranking s) (eligible s user db).

(** Skipping [(page - 1) * limit] entries and taking at most [limit]. *)
Definition slice {D} (page limit : Z) (full : list D) : list D :=
  take (Z.to_nat limit) (drop (Z.to_nat ((page - 1) * limit)) full).

(** The page of a sequence that a query asks for. *)
Definition paginate {D} (q : query) (full : list D) : outcome (list D) :=
  let page := default 1 (page q) in
  let limit := default 10 (limit q) in
  Agg.and_then
    (Agg.and_then (Json full) (Agg.skip_stage ((page - 1) * limit)))
    (Agg.limit_stage limit).

(** The like count of a returned record. *)
Definition likeCount {L A} (d : Track.doc L A) : nat :=
  default 0%nat (Track.likedLength d).

(** The fields of a stored user that make up its public profile: its
    identity, its profile and its two timestamps. *)
Definition public_profile_fields : list string :=
  ["_id"; "profile"; "createdAt"; "updatedAt"].

(** An author summary that exposes public profile fields only. *)
Definition only_public_profile (a : document) : Prop :=
  ∀ f, is_Some (a !! f) → f ∈ public_profile_fields.

(** One toggle of a user in a liker array, as [putTrackLike] updates it. *)
Definition toggle (x : ObjectId) (arr : list ObjectId) : list ObjectId :=
  if bool_decide (x ∈ arr) then pull x arr else addToSet x arr.

(** The invariant of the liker arrays: no user twice. *)
Definition liked_unique (db : Db) : Prop :=
  Forall (fun t : ITrack => NoDup (Track.liked t)) (db_tracks db).

(** ** A small database used to run the handlers *)

Module Sample.

Definition alice : User.UserDocument :=
  {| User._id := 100%N;
     User.email := Some "Alice@Example.com";
     User.password := Some "$2a$10$hash";
     User.passwordResetToken := Some "reset-token";
     User.passwordResetExpires := Some 1700000000;
     User.profile :=
       {| User.name := Some "Alice"; User.gender := None;
          User.location := None; User.website := None;
          User.picture := None |};
     User.followers := [101%N];
     User.createdAt := 1; User.updatedAt := 2 |}.

Definition bob : User.UserDocument :=
  {| User._id := 101%N;
     User.email := None;
     User.password := Some "$2a$10$other";
     User.passwordResetToken := None;
     User.passwordResetExpires := None;
     User.profile :=
       {| User.name := Some "Bob"; User.gender := None;
          User.location := None; User.website := None;
          User.picture := None |};
     User.followers := [];
     User.createdAt := 3; User.updatedAt := 4 |}.

(** [alice] with her email in lower case. *)
Definition alice_lower : User.UserDocument :=
  {| User._id := User._id alice;
     User.email := Some "alice@example.com";
     User.password := User.password alice;
     User.passwordResetToken := User.passwordResetToken alice;
     User.passwordResetExpires := User.passwordResetExpires alice;
     User.profile := User.profile alice;
     User.followers := User.followers alice;
     User.createdAt := User.createdAt alice;
     User.updatedAt := User.updatedAt alice |}.

(** The requester, an ordinary user; [boss] is an administrator.  Both,
    and [alice_req], are hydrated documents; [alice_plain] is [alice] as a
    plain object, her [_id] a string. *)
Definition me : User.IUser :=
  {| User.id := 9%N; User.role := "USER"; User.hydrated := true |}.
Definition boss : User.IUser :=
  {| User.id := 7%N; User.role := "ADMIN"; User.hydrated := true |}.
Definition alice_req : User.IUser :=
  {| User.id := 100%N; User.role := "USER"; User.hydrated := true |}.
Definition alice_plain : User.IUser :=
  {| User.id := 100%N; User.role := "USER"; User.hydrated := false |}.

Definition track (id author : ObjectId) (likers : list ObjectId) (at_ : Z)
    : ITrack :=
  Track.Doc id "song" "cover.png" author 1%N likers None at_.

(** Five tracks with like counts 5, 5, 3, 1 and 0; the requester liked the
    second of the two tracks with five likes. *)
Definition tracks : list ITrack :=
  [ track 1 100 [1; 2; 3; 4; 5]%N 10;
    track 2 100 [1; 2; 3; 4; 9]%N 11;
    track 3 100 [1; 2; 3]%N 12;
    track 4 101 [1]%N 13;
    track 5 100 []%N 14 ].

Definition playlist : IPlaylist :=
  {| Playlist._id := 1%N; Playlist.img := "cover.png";
     Playlist.tracks := [1; 2; 3; 4; 5]%N |}.

Definition db : Db :=
  {| db_tracks := tracks;
     db_playlists := [playlist];
     db_users := [User.to_document alice; User.to_document bob] |}.

Definition rows_of {A} (o : outcome (list A)) : list A :=
  match o with
  | Json rows => rows
  | _ => []
  end.

Definition first_two : query := {| page := Some 1; limit := Some 2 |}.
Definition second_two : query := {| page := Some 2; limit := Some 2 |}.
Definition no_query : query := {| page := None; limit := None |}.
Definition limit_zero : query := {| page := Some 1; limit := Some 0 |}.

Definition clock : env := {| now := 20; newId := 6%N |}.

Definition size_64 : User.safe_integer := User.SafeInteger 64 I.
Definition size_80 : User.safe_integer := User.SafeInteger 80 I.

(** The record the global listing returns first: the second track, with
    the summary of its owner. *)
Definition first_row : Track.doc bool document :=
  row Global me (track 2 100 [1; 2; 3; 4; 9]%N 11) (User.to_document alice).

End Sample.

(** ** Notions for the properties beyond the specification *)

(** The data of a response, none when the handler gave no answer. *)
Definition data_of {A} (o : outcome (list A)) : list A :=
  match o with
  | Json rows => rows
  | _ => []
  end.

(** The query for page [p] with [limit] records a page. *)
Definition page_query (p : nat) (limit : Z) : query :=
  {| page := Some (Z.of_nat p); limit := Some limit |}.

(** The pages 1 to [n] of a scope, one after the other. *)
Definition first_pages (s : scope) (limit : Z) (user : User.IUser) (db : Db)
    (n : nat) : list (Track.doc bool document) :=
  List.flat_map (fun p => data_of (listing s (page_query p limit) user db))
    (seq 1 n).

(** No two documents of a list tie in all the keys of a sort. *)
Fixpoint distinct_ranks {D} (spec : list ((D → Agg.sortkey) * Z)) (l : list D)
    : bool :=
  match l with
  | [] => true
  | a :: l' =>
      forallb
        (fun b =>
           match Agg.sort_compare spec a b with
           | Eq => false
           | _ => true
           end) l'
      && distinct_ranks spec l'
  end.

(** An arrangement the sort stage of the store may give the records of a
    scope on one run of a pipeline: all of them, in ranking order, ties
    in whatever order. *)
Definition ranked_arrangement (s : scope) (user : User.IUser) (db : Db)
    (l : list (Track.doc bool document)) : Prop :=
  l ≡ₚ eligible s user db ∧ StronglySorted (Agg.sort_le (ranking s)) l.

(** The pages 1 to [n], each cut from the arrangement of its own run. *)
Definition pages_of_runs {D} (limit : Z) (runs : nat → list D) (n : nat)
    : list D :=
  List.flat_map
    (fun p =>
       take (Z.to_nat limit) (drop ((p - 1) * Z.to_nat limit) (runs p)))
    (seq 1 n).

(** The store keeps the identities of a collection distinct. *)
Definition unique_track_ids (db : Db) : Prop :=
  NoDup (Track._id <$> db_tracks db).

Definition user_ids (db : Db) : list value :=
  omap (fun u : document => u !! "_id") (db_users db).

Definition unique_user_ids (db : Db) : Prop := NoDup (user_ids db).

(** A stored user has the identity [i]. *)
Definition stored_user (i : ObjectId) (db : Db) : Prop :=
  ∃ u : document, u ∈ db_users db ∧ u !! "_id" = Some (VId i).

(** The test that a record of the global listing belongs to a scope. *)
Definition row_in_scope (s : scope) (r : Track.doc bool document) : bool :=
  match s with
  | Global => true
  | InPlaylist id => N.eqb (Track.playlist r) id
  | LikedOnly => Track.liked r
  | ByAuthor id =>
      match Track.author r !! "_id" with
      | Some v => value_eqb v (VId id)
      | None => false
      end
  end.

(** A document without its [liked] field. *)
Definition without_liked {L A} (d : Track.doc L A) : Track.doc unit A :=
  Track.set_liked tt d.

(** The test suite of RFC 1321: messages and their digests. *)
Definition rfc1321_test_suite : list (string * string) :=
  [ ("", "d41d8cd98f00b204e9800998ecf8427e");
    ("a", "0cc175b9c0f1b6a831c399e269772661");
    ("abc", "900150983cd24fb0d6963f7d28e17f72");
    ("message digest", "f96b697d7cb7938d525a2f31aaf161d0");
    ("abcdefghijklmnopqrstuvwxyz", "c3fcd3d76192e4007dfb496cca67e13b");
    ("ABCDEFGHIJKLMNOPQRSTUVWXYZabcdefghijklmnopqrstuvwxyz0123456789",
     "d174ab98d277d9f5a5611c2c9f419d9f");
    ("12345678901234567890123456789012345678901234567890123456789012345678901234567890",
     "57edf4a22be3c955ac49da2e2107b67a") ].

(** The characters of a hexadecimal digest. *)
Definition is_hex_digit (c : ascii) : bool :=
  existsb (Ascii.eqb c) (list_ascii_of_string "0123456789abcdef").

(** The sample database with one more track, whose author is no stored
    user. *)
Definition orphan : ITrack := Sample.track 6 102 [9]%N 15.

Definition db_with_orphan : Db :=
  {| db_tracks := Sample.tracks ++ [orphan];
     db_playlists := db_playlists Sample.db;
     db_users := db_users Sample.db |}.

(** A user is among the likers of a track. *)
Definition liked_by (x : ObjectId) (t : ITrack) : bool :=
  bool_decide (x ∈ Track.liked t).

(** * Properties *)

(** ** Order-theoretic facts about the sort stage *)

Section SortOrder.
Context {D : Type}.

(** A three-way comparison that behaves like one of a total preorder. *)
Record order_like (c : D → D → comparison) : Prop := {
  ord_opp : ∀ a b, c b a = CompOpp (c a b);
  ord_lt : ∀ a b d, c a b = Lt → c b d = Lt → c a d = Lt;
  ord_eq : ∀ a b d, c a b = Eq → c a d = c b d
}.

Lemma order_like_const : order_like (fun _ _ => Eq).
Proof. split; intros; reflexivity || assumption. Qed.

Lemma order_like_flip c : order_like c → order_like (fun a b => c b a).
Proof.
  intros [Ho Hl He]. split.
  - intros a b. apply Ho.
  - intros a b d Hab Hbd. eauto.
  - intros a b d Hab.
    assert (Hba : c a b = Eq) by (rewrite Ho, Hab; reflexivity).
    rewrite (Ho a d), (Ho b d). f_equal. apply He. exact Hba.
Qed.

Lemma order_like_lex c1 c2 :
  order_like c1 → order_like c2 →
  order_like (fun a b => match c1 a b with Eq => c2 a b | r => r end).
Proof.
  intros [Ho1 Hl1 He1] [Ho2 Hl2 He2]. split.
  - intros a b. rewrite Ho1. destruct (c1 a b); simpl; auto.
  - intros a b d Hab Hbd.
    destruct (c1 a b) eqn:Eab; try discriminate.
    + rewrite (He1 _ _ d Eab).
      destruct (c1 b d) eqn:Ebd; try discriminate; eauto.
    + destruct (c1 b d) eqn:Ebd; try discriminate.
      * assert (Hdb : c1 d b = Eq) by (rewrite Ho1, Ebd; reflexivity).
        assert (Hda : c1 d a = Gt).
        { rewrite (He1 _ _ a Hdb), Ho1, Eab. reflexivity. }
        rewrite (Ho1 d a), Hda. reflexivity.
      * rewrite (Hl1 _ _ _ Eab Ebd). reflexivity.
  - intros a b d Hab.
    destruct (c1 a b) eqn:Eab; try discriminate.
    rewrite (He1 _ _ d Eab), (He2 _ _ d Hab). reflexivity.
Qed.

Lemma order_like_key (key : D → Agg.sortkey) :
  order_like (fun a b => Agg.key_compare (key a) (key b)).
Proof.
  unfold Agg.key_compare. split.
  - intros a b.
    destruct (Agg.key_code (key a)) as [x1 x2],
             (Agg.key_code (key b)) as [y1 y2]; simpl.
    rewrite (Z.compare_antisym x1 y1), (Z.compare_antisym x2 y2).
    destruct (x1 ?= y1); reflexivity.
  - intros a b d.
    destruct (Agg.key_code (key a)) as [x1 x2],
             (Agg.key_code (key b)) as [y1 y2],
             (Agg.key_code (key d)) as [z1 z2]; simpl.
    destruct (Z.compare_spec x1 y1), (Z.compare_spec y1 z1),
             (Z.compare_spec x1 z1); try lia; try discriminate; auto;
      destruct (Z.compare_spec x2 y2), (Z.compare_spec y2 z2),
               (Z.compare_spec x2 z2); try lia; try discriminate; auto.
  - intros a b d.
    destruct (Agg.key_code (key a)) as [x1 x2],
             (Agg.key_code (key b)) as [y1 y2],
             (Agg.key_code (key d)) as [z1 z2]; simpl.
    destruct (Z.compare_spec x1 y1); try discriminate.
    destruct (Z.compare_spec x2 y2); try discriminate.
    subst. reflexivity.
Qed.

Lemma order_like_sort_compare (spec : list ((D → Agg.sortkey) * Z)) :
  order_like (Agg.sort_compare spec).
Proof.
  induction spec as [|[key dir] spec IH]; simpl.
  - apply order_like_const.
  - destruct (dir <? 0).
    + apply (order_like_lex (fun a b => Agg.key_compare (key b) (key a)));
        [apply order_like_flip, order_like_key | exact IH].
    + apply (order_like_lex (fun a b => Agg.key_compare (key a) (key b)));
        [apply order_like_key | exact IH].
Qed.

#[global] Instance sort_le_total (spec : list ((D → Agg.sortkey) * Z)) :
  Total (Agg.sort_le spec).
Proof.
  intros a b. unfold Agg.sort_le.
  rewrite (ord_opp _ (order_like_sort_compare spec) a b).
  destruct (Agg.sort_compare spec a b); simpl; [left|left|right]; congruence.
Qed.

#[global] Instance sort_le_trans (spec : list ((D → Agg.sortkey) * Z)) :
  Transitive (Agg.sort_le spec).
Proof.
  intros a b d. unfold Agg.sort_le.
  pose proof (order_like_sort_compare spec) as [Ho Hl He].
  destruct (Agg.sort_compare spec a b) eqn:Eab; try congruence; intros _.
  - rewrite (He _ _ d Eab). auto.
  - destruct (Agg.sort_compare spec b d) eqn:Ebd; try congruence; intros _.
    + assert (Hdb : Agg.sort_compare spec d b = Eq)
        by (rewrite Ho, Ebd; reflexivity).
      rewrite (Ho d a), (He _ _ a Hdb), Ho, Eab. simpl. congruence.
    + rewrite (Hl _ _ _ Eab Ebd). congruence.
Qed.

Lemma sort_stage_sorted (spec : list ((D → Agg.sortkey) * Z)) (l : list D) :
  StronglySorted (Agg.sort_le spec) (Agg.sort_stage spec l).
Proof. apply StronglySorted_merge_sort; apply _. Qed.

Lemma sort_stage_perm (spec : list ((D → Agg.sortkey) * Z)) (l : list D) :
  Agg.sort_stage spec l ≡ₚ l.
Proof. apply merge_sort_Permutation. Qed.

Lemma sort_stage_elem_of (spec : list ((D → Agg.sortkey) * Z)) l (x : D) :
  x ∈ Agg.sort_stage spec l ↔ x ∈ l.
Proof. by rewrite sort_stage_perm. Qed.

Lemma sorted_lookup (R : relation D) (l : list D) (i j : nat) (a b : D) :
  StronglySorted R l → l !! i = Some a → l !! j = Some b → (i < j)%nat →
  R a b.
Proof.
  intros Hs. revert i j. induction Hs as [|x l Hs IH Hx]; intros i j Hi Hj Hlt.
  - by rewrite lookup_nil in Hi.
  - destruct j as [|j]; [lia|]. simpl in Hj.
    destruct i as [|i]; simpl in Hi.
    + injection Hi as <-. rewrite Forall_forall in Hx.
      apply Hx. eapply list_elem_of_lookup_2. exact Hj.
    + apply (IH i j); auto. lia.
Qed.

Lemma sorted_slice (R : relation D) (l : list D) (n m : nat) :
  StronglySorted R l → StronglySorted R (take n (drop m l)).
Proof.
  intros Hs. rewrite <- (take_drop m l) in Hs.
  apply StronglySorted_app_1_r in Hs.
  rewrite <- (take_drop n (drop m l)) in Hs.
  by apply StronglySorted_app_1_l in Hs.
Qed.

End SortOrder.

(** ** The pipelines in normal form *)

Lemma value_eqb_VId (v : value) (i : ObjectId) :
  value_eqb v (VId i) = true ↔ v = VId i.
Proof.
  destruct v; simpl; try (split; [discriminate | intros; discriminate]).
  rewrite N.eqb_eq. split; congruence.
Qed.

Lemma owns_spec (t : ITrack) (u : document) :
  owns t u = true ↔ u !! "_id" = Some (VId (Track.author t)).
Proof.
  unfold owns. destruct (u !! "_id") as [v|].
  - rewrite value_eqb_VId. split; congruence.
  - split; discriminate.
Qed.

Lemma query_in_liked (uid : ObjectId) (arr : list ObjectId) :
  Agg.query_in [VId uid; VStr "$liked"] (VArr (VId <$> arr))
  = bool_decide (uid ∈ arr).
Proof.
  unfold Agg.query_in. simpl.
  induction arr as [|x arr IH].
  - reflexivity.
  - rewrite fmap_cons. cbn [existsb]. rewrite IH. cbn [value_eqb].
    rewrite !orb_false_r.
    destruct (N.eqb_spec x uid) as [->|Hne]; simpl.
    + symmetry. apply bool_decide_eq_true_2. left.
    + apply bool_decide_ext. rewrite elem_of_cons.
      split; [tauto | intros [Heq|Hin]; congruence].
Qed.

Lemma pipeline_lookup_unwind {L} (users : list document)
    (tracks : list (Track.doc L ObjectId)) :
  Agg.unwind_author
    (Agg.project_author hidden_author_fields
       (Agg.lookup_author users tracks))
  = List.flat_map
      (fun d =>
         List.map (fun u => Track.set_author (summary u) d)
           (List.filter
              (fun u : document =>
                 match u !! "_id" with
                 | Some v => value_eqb v (VId (Track.author d))
                 | None => false
                 end) users))
      tracks.
Proof.
  unfold Agg.unwind_author, Agg.project_author, Agg.lookup_author.
  induction tracks as [|d tracks IH]; [reflexivity|].
  cbn [List.map List.flat_map]. rewrite IH. f_equal.
  cbn [Track.set_author Track.author]. rewrite List.map_map. reflexivity.
Qed.

Lemma filter_ext_bool {A} (f g : A → bool) (l : list A) :
  (∀ x, f x = g x) → List.filter f l = List.filter g l.
Proof. intros H. apply List.filter_ext. exact H. Qed.

Lemma listing_normal_form (s : scope) (q : query) (user : User.IUser) (db : Db) :
  listing s q user db = paginate q (full_sequence s user db).
Proof.
  destruct db as [tracks playlists users].
  destruct s as [|id| |id]; simpl;
    unfold getTracks, getTracksInPlaylist, getTracksLiked, getTracksByAuthor,
      paginate, full_sequence, eligible, Agg.addFields, Agg.match_stage;
    simpl; do 3 f_equal.
  - rewrite pipeline_lookup_unwind.
    induction tracks as [|t tracks IH]; simpl; [reflexivity|].
    rewrite IH. f_equal.
  - rewrite pipeline_lookup_unwind.
    induction tracks as [|t tracks IH]; simpl; [reflexivity|].
    destruct (N.eqb_spec (Track.playlist t) id) as [Hp|Hp].
    + rewrite (bool_decide_eq_true_2 _ Hp). simpl. rewrite IH. f_equal.
    + rewrite (bool_decide_eq_false_2 _ Hp). exact IH.
  - rewrite pipeline_lookup_unwind.
    induction tracks as [|t tracks IH]; simpl; [reflexivity|].
    rewrite query_in_liked.
    destruct (bool_decide (User.id user ∈ Track.liked t)); simpl.
    + rewrite IH. f_equal.
    + exact IH.
  - rewrite pipeline_lookup_unwind.
    induction tracks as [|t tracks IH]; simpl; [reflexivity|].
    destruct (N.eqb_spec (Track.author t) id) as [Hp|Hp].
    + rewrite (bool_decide_eq_true_2 _ Hp). simpl.
      rewrite List.map_app, IH. f_equal. rewrite List.map_map. reflexivity.
    + rewrite (bool_decide_eq_false_2 _ Hp). exact IH.
Qed.

(** ** Pagination *)

Lemma paginate_inv {D} (q : query) (full rows : list D) :
  paginate q full = Json rows →
  rows = slice (default 1 (page q)) (default 10 (limit q)) full.
Proof.
  unfold paginate, slice, Agg.skip_stage, Agg.limit_stage. simpl.
  destruct ((default 1 (page q) - 1) * default 10 (limit q) <? 0);
    simpl; [discriminate|].
  destruct (default 10 (limit q) <=? 0); [discriminate|].
  congruence.
Qed.

Lemma paginate_ok {D} (q : query) (full : list D) :
  1 ≤ default 1 (page q) → 1 ≤ default 10 (limit q) →
  paginate q full
  = Json (slice (default 1 (page q)) (default 10 (limit q)) full).
Proof.
  intros Hp Hl.
  unfold paginate, slice, Agg.skip_stage, Agg.limit_stage. simpl.
  destruct (Z.ltb_spec ((default 1 (page q) - 1) * default 10 (limit q)) 0);
    [nia|]. simpl.
  destruct (Z.leb_spec (default 10 (limit q)) 0); [lia|]. reflexivity.
Qed.

Lemma slice_subseteq {D} (p l : Z) (full : list D) : slice p l full ⊆ full.
Proof.
  unfold slice. etransitivity; [apply subseteq_take | apply subseteq_drop].
Qed.

(** Every record of a listing is the record of a stored track of the
    scope and of a stored user that owns it. *)
Lemma listing_rows (s : scope) (q : query) (user : User.IUser) (db : Db)
    (rows : list (Track.doc bool document)) (r : Track.doc bool document) :
  listing s q user db = Json rows → r ∈ rows →
  ∃ t u, t ∈ db_tracks db ∧ u ∈ db_users db
         ∧ scope_filter s user t = true ∧ owns t u = true
         ∧ r = row s user t u.
Proof.
  rewrite listing_normal_form. intros Hp Hr.
  apply paginate_inv in Hp. subst rows.
  apply slice_subseteq in Hr.
  unfold full_sequence in Hr. rewrite sort_stage_elem_of in Hr.
  unfold eligible in Hr. rewrite list_elem_of_In in Hr.
  apply in_flat_map in Hr as (t & Ht & Hr).
  apply filter_In in Ht as [Ht Hf].
  apply in_map_iff in Hr as (u & <- & Hu).
  apply filter_In in Hu as [Hu Ho].
  exists t, u. rewrite !list_elem_of_In. auto.
Qed.

Lemma listing_sorted (s : scope) (q : query) (user : User.IUser) (db : Db)
    (rows : list (Track.doc bool document)) :
  listing s q user db = Json rows →
  StronglySorted (Agg.sort_le (ranking s)) rows.
Proof.
  rewrite listing_normal_form. intros Hp.
  apply paginate_inv in Hp. subst rows.
  apply sorted_slice, sort_stage_sorted.
Qed.

(** Two positions of a sorted page: the later record never ranks strictly
    before the earlier one. *)
Lemma listing_positions (s : scope) (q : query) (user : User.IUser) (db : Db)
    (rows : list (Track.doc bool document)) (i j : nat)
    (a b : Track.doc bool document) :
  listing s q user db = Json rows →
  rows !! i = Some a → rows !! j = Some b → ¬ (i < j)%nat →
  a = b ∨ Agg.sort_compare (ranking s) b a ≠ Gt.
Proof.
  intros Hl Hi Hj Hij.
  destruct (decide (i = j)) as [->|Hne].
  - left. congruence.
  - right.
    apply (sorted_lookup (Agg.sort_le (ranking s)) rows j i b a); auto.
    + eapply listing_sorted; eauto.
    + lia.
Qed.

(** To show that position [i] is before position [j] in a page: if it
    were not, the two records would be the same, or the one at [j] would
    rank no later than the one at [i]; both are left to refute. *)
Ltac earlier_or_absurd Hl Hi Hj :=
  match goal with
  | |- (?i < ?j)%nat =>
      let Hij := fresh "Hij" in
      let Hc := fresh "Hc" in
      destruct (decide (i < j)%nat) as [|Hij]; [assumption|];
      exfalso;
      destruct (listing_positions _ _ _ _ _ i j _ _ Hl Hi Hj Hij)
        as [->|Hc]; [|apply Hc]
  end.

(** ** Ranking *)

Lemma ranked_compare_Gt (s : scope) (a b : Track.doc bool document)
    (na nb : nat) :
  s ≠ LikedOnly →
  Track.likedLength a = Some na → Track.likedLength b = Some nb →
  (nb < na)%nat
  ∨ (na = nb ∧ Track.liked a = true ∧ Track.liked b = false)
  ∨ (na = nb ∧ Track.liked a = Track.liked b
     ∧ Track.createdAt b < Track.createdAt a) →
  Agg.sort_compare (ranking s) b a = Gt.
Proof.
  intros Hs Ha Hb Hcases.
  assert (Hr : ranking s = [ (Agg.by_likedLength, -1); (Agg.by_liked, -1);
                             (Agg.by_createdAt, -1) ])
    by (destruct s; try reflexivity; congruence).
  rewrite Hr. cbn [Agg.sort_compare]. change (-1 <? 0) with true. cbv iota.
  unfold Agg.by_likedLength, Agg.by_liked, Agg.by_createdAt, Agg.key_compare.
  rewrite Ha, Hb. cbn [Agg.key_code fst snd].
  change (2 ?= 2) with Eq. change (8 ?= 8) with Eq. change (9 ?= 9) with Eq.
  cbv iota.
  destruct Hcases as [Hlt | [(-> & Hla & Hlb) | (-> & Hl & Hc)]].
  - destruct (Z.compare_spec (Z.of_nat na) (Z.of_nat nb)); try lia.
    reflexivity.
  - rewrite Z.compare_refl, Hla, Hlb. reflexivity.
  - rewrite Z.compare_refl, Hl, Z.compare_refl.
    destruct (Z.compare_spec (Track.createdAt a) (Track.createdAt b));
      try lia. reflexivity.
Qed.

Lemma liked_compare_Gt (a b : Track.doc bool document) :
  Track.createdAt b < Track.createdAt a →
  Agg.sort_compare (ranking LikedOnly) b a = Gt.
Proof.
  intros Hc. cbn [ranking Agg.sort_compare]. change (-1 <? 0) with true.
  cbv iota. unfold Agg.by_createdAt, Agg.key_compare.
  cbn [Agg.key_code fst snd]. change (9 ?= 9) with Eq. cbv iota.
  destruct (Z.compare_spec (Track.createdAt a) (Track.createdAt b));
    try lia. reflexivity.
Qed.

(** C1. In the global, the playlist-scoped and the author-scoped listing,
    every returned record carries the like count and the requester's liked
    flag of a stored track, and the records are ordered by like count
    descending, then by the liked flag (liked first), then by creation
    time descending: a record with more likes comes before one with
    fewer; at equal like counts a record the requester liked comes before
    one they did not; at equal like counts and equal flags the newer
    record comes first. *)
Theorem ranked_listing_order (s : scope) (q : query) (user : User.IUser)
    (db : Db) (rows : list (Track.doc bool document)) :
  s ≠ LikedOnly →
  listing s q user db = Json rows →
  (∀ r, r ∈ rows →
     ∃ t, t ∈ db_tracks db
          ∧ Track._id r = Track._id t
          ∧ Track.createdAt r = Track.createdAt t
          ∧ Track.likedLength r = Some (length (Track.liked t))
          ∧ Track.liked r = bool_decide (User.id user ∈ Track.liked t))
  ∧ ∀ i j a b, rows !! i = Some a → rows !! j = Some b →
      ((likeCount b < likeCount a)%nat → (i < j)%nat)
      ∧ (likeCount a = likeCount b →
         Track.liked a = true → Track.liked b = false → (i < j)%nat)
      ∧ (likeCount a = likeCount b →
         Track.liked a = Track.liked b →
         Track.createdAt b < Track.createdAt a → (i < j)%nat).
Proof.
  intros Hs Hl.
  assert (Hrows : ∀ r, r ∈ rows →
     ∃ t, t ∈ db_tracks db
          ∧ Track._id r = Track._id t
          ∧ Track.createdAt r = Track.createdAt t
          ∧ Track.likedLength r = Some (length (Track.liked t))
          ∧ Track.liked r = bool_decide (User.id user ∈ Track.liked t)).
  { intros r Hr.
    destruct (listing_rows s q user db rows r Hl Hr)
      as (t & u & Ht & _ & _ & _ & ->).
    exists t. destruct s; try congruence; simpl; auto. }
  split; [exact Hrows|].
  intros i j a b Hi Hj.
  destruct (Hrows a (list_elem_of_lookup_2 _ _ _ Hi))
    as (ta & _ & _ & _ & Hna & _).
  destruct (Hrows b (list_elem_of_lookup_2 _ _ _ Hj))
    as (tb & _ & _ & _ & Hnb & _).
  unfold likeCount. rewrite Hna, Hnb. simpl.
  repeat split.
  - intros Hlt. earlier_or_absurd Hl Hi Hj.
    + rewrite Hna in Hnb. injection Hnb as Heq. lia.
    + eapply ranked_compare_Gt; eauto.
  - intros Heq Hla Hlb. earlier_or_absurd Hl Hi Hj.
    + congruence.
    + eapply ranked_compare_Gt; eauto.
  - intros Heq Hlk Hc'. earlier_or_absurd Hl Hi Hj.
    + lia.
    + eapply ranked_compare_Gt; eauto.
Qed.

(** C2. In the liked-only listing every returned record is the record of a
    stored track whose likers include the requester, and the records are
    ordered by creation time descending alone: a newer record comes before
    an older one whatever their like counts. *)
Theorem liked_listing_order (q : query) (user : User.IUser) (db : Db)
    (rows : list (Track.doc bool document)) :
  getTracksLiked q user db = Json rows →
  (∀ r, r ∈ rows →
     ∃ t, t ∈ db_tracks db
          ∧ Track._id r = Track._id t
          ∧ Track.createdAt r = Track.createdAt t
          ∧ User.id user ∈ Track.liked t
          ∧ Track.liked r = true)
  ∧ ∀ i j a b, rows !! i = Some a → rows !! j = Some b →
      Track.createdAt b < Track.createdAt a → (i < j)%nat.
Proof.
  intros Hl. change (listing LikedOnly q user db = Json rows) in Hl. split.
  - intros r Hr.
    destruct (listing_rows LikedOnly q user db rows r Hl Hr)
      as (t & u & Ht & _ & Hf & _ & ->).
    exists t. simpl in Hf. apply bool_decide_eq_true_1 in Hf. simpl. auto.
  - intros i j a b Hi Hj Hc. earlier_or_absurd Hl Hi Hj.
    + lia.
    + by apply liked_compare_Gt.
Qed.

(** The requester liked the second of the two most liked tracks of the
    sample database: the first page of two holds it first. *)
Example sample_first_page :
  Track._id <$> Sample.rows_of
    (getTracks Sample.first_two Sample.me Sample.db) = [2%N; 1%N].
Proof. vm_compute. reflexivity. Qed.

Lemma ranked_listing_order_witness :
  Global ≠ LikedOnly
  ∧ listing Global Sample.first_two Sample.me Sample.db
    = Json (Sample.rows_of (getTracks Sample.first_two Sample.me Sample.db))
  ∧ ∀ i j a b,
      Sample.rows_of (getTracks Sample.first_two Sample.me Sample.db) !! i
        = Some a →
      Sample.rows_of (getTracks Sample.first_two Sample.me Sample.db) !! j
        = Some b →
      ((likeCount b < likeCount a)%nat → (i < j)%nat)
      ∧ (likeCount a = likeCount b →
         Track.liked a = true → Track.liked b = false → (i < j)%nat)
      ∧ (likeCount a = likeCount b →
         Track.liked a = Track.liked b →
         Track.createdAt b < Track.createdAt a → (i < j)%nat).
Proof.
  assert (H1 : Global ≠ LikedOnly) by discriminate.
  assert (H2 : listing Global Sample.first_two Sample.me Sample.db
    = Json (Sample.rows_of (getTracks Sample.first_two Sample.me Sample.db)))
    by (vm_compute; reflexivity).
  split; [exact H1|]. split; [exact H2|].
  exact (proj2 (ranked_listing_order Global Sample.first_two Sample.me
                  Sample.db _ H1 H2)).
Defined.

Example sample_liked_page :
  Track._id <$> Sample.rows_of
    (getTracksLiked Sample.no_query Sample.me Sample.db) = [2%N].
Proof. vm_compute. reflexivity. Qed.

Lemma liked_listing_order_witness :
  getTracksLiked Sample.no_query Sample.me Sample.db
    = Json (Sample.rows_of (getTracksLiked Sample.no_query Sample.me Sample.db))
  ∧ ∀ r,
      r ∈ Sample.rows_of (getTracksLiked Sample.no_query Sample.me Sample.db) →
      ∃ t, t ∈ db_tracks Sample.db
           ∧ Track._id r = Track._id t
           ∧ Track.createdAt r = Track.createdAt t
           ∧ User.id Sample.me ∈ Track.liked t
           ∧ Track.liked r = true.
Proof.
  assert (H : getTracksLiked Sample.no_query Sample.me Sample.db
    = Json (Sample.rows_of
              (getTracksLiked Sample.no_query Sample.me Sample.db)))
    by (vm_compute; reflexivity).
  split; [exact H|].
  exact (proj1 (liked_listing_order Sample.no_query Sample.me Sample.db _ H)).
Defined.

(** ** Pages *)

(** C3, as the handlers have it.  For every scope, every page of at least
    1 and every limit of at least 1, an absent page counting as 1 and an
    absent limit as 10, the listing returns the slice of the full
    filtered and sorted sequence of the scope that skips
    [(page - 1) * limit] records and takes at most [limit]; it holds at
    most [limit] records. *)
Theorem listing_is_slice (s : scope) (q : query) (user : User.IUser) (db : Db) :
  1 ≤ default 1 (page q) → 1 ≤ default 10 (limit q) →
  listing s q user db
  = Json (slice (default 1 (page q)) (default 10 (limit q))
            (full_sequence s user db))
  ∧ Nat.le
      (length (slice (default 1 (page q)) (default 10 (limit q))
                 (full_sequence s user db)))
      (Z.to_nat (default 10 (limit q))).
Proof.
  intros Hp Hl. split.
  - rewrite listing_normal_form. by apply paginate_ok.
  - unfold slice. rewrite length_take. lia.
Qed.

Lemma listing_is_slice_witness :
  1 ≤ default 1 (page Sample.second_two)
  ∧ 1 ≤ default 10 (limit Sample.second_two)
  ∧ listing (ByAuthor 100%N) Sample.second_two Sample.me Sample.db
    = Json (slice 2 2 (full_sequence (ByAuthor 100%N) Sample.me Sample.db))
  ∧ 1 ≤ default 1 (page Sample.no_query)
  ∧ 1 ≤ default 10 (limit Sample.no_query)
  ∧ listing Global Sample.no_query Sample.me Sample.db
    = Json (slice 1 10 (full_sequence Global Sample.me Sample.db)).
Proof.
  assert (H1 : 1 ≤ default 1 (page Sample.second_two)) by (simpl; lia).
  assert (H2 : 1 ≤ default 10 (limit Sample.second_two)) by (simpl; lia).
  assert (H3 : 1 ≤ default 1 (page Sample.no_query)) by (simpl; lia).
  assert (H4 : 1 ≤ default 10 (limit Sample.no_query)) by (simpl; lia).
  exact (conj H1 (conj H2
          (conj (proj1 (listing_is_slice (ByAuthor 100%N) Sample.second_two
                          Sample.me Sample.db H1 H2))
          (conj H3 (conj H4
                (proj1 (listing_is_slice Global Sample.no_query
                          Sample.me Sample.db H3 H4))))))).
Defined.

(** C3, as stated, fails for a limit of 0: the slice that takes at most 0
    records is empty, but the store rejects the pipeline. *)
Lemma listing_limit_zero_rejected :
  listing Global Sample.limit_zero Sample.me Sample.db
    = Fault LimitNotPositive
  ∧ listing Global Sample.limit_zero Sample.me Sample.db
    ≠ Json (slice (default 1 (page Sample.limit_zero))
              (default 10 (limit Sample.limit_zero))
              (full_sequence Global Sample.me Sample.db)).
Proof.
  assert (H : listing Global Sample.limit_zero Sample.me Sample.db
              = Fault LimitNotPositive) by (vm_compute; reflexivity).
  split; [exact H|]. rewrite H. discriminate.
Qed.

(** Outside that range the store rejects the pipeline of every scope. *)
Lemma listing_rejected (s : scope) (q : query) (user : User.IUser) (db : Db) :
  default 1 (page q) < 1 ∨ default 10 (limit q) < 1 →
  ∃ f, listing s q user db = Fault f.
Proof.
  intros Hout. rewrite listing_normal_form.
  unfold paginate, Agg.skip_stage, Agg.limit_stage. simpl.
  destruct (Z.ltb_spec ((default 1 (page q) - 1) * default 10 (limit q)) 0);
    simpl; [eauto|].
  destruct (Z.leb_spec (default 10 (limit q)) 0); [eauto|]. nia.
Qed.

(** ** Author summaries *)

Lemma lookup_foldr_delete_other (u : document) (js : list string) (f : string) :
  f ∉ js → foldr delete u js !! f = u !! f.
Proof.
  induction js as [|j js IH]; simpl; [reflexivity|].
  rewrite not_elem_of_cons. intros [Hne Hnot].
  rewrite lookup_delete_ne by congruence. by apply IH.
Qed.

Lemma summary_hidden (u : document) (f : string) :
  f ∈ hidden_author_fields → summary u !! f = None.
Proof. apply lookup_foldr_delete. Qed.

Lemma summary_other (u : document) (f : string) :
  f ∉ hidden_author_fields → summary u !! f = u !! f.
Proof. apply lookup_foldr_delete_other. Qed.

Lemma row_author (s : scope) (user : User.IUser) (t : ITrack) (u : document) :
  Track.author (row s user t u) = summary u
  ∧ Track._id (row s user t u) = Track._id t.
Proof. destruct s; split; reflexivity. Qed.

(** X20.  In the result of every listing the
    embedded author of every record holds none of the fields
    [password], [email], [followers], [likedPlaylists] and [likedTracks];
    it is the summary of a stored user that owns the track, and exposes
    that user's identity and profile as stored. *)
Theorem author_summary_fields (s : scope) (q : query) (user : User.IUser)
    (db : Db) (rows : list (Track.doc bool document))
    (r : Track.doc bool document) :
  listing s q user db = Json rows → r ∈ rows →
  Track.author r !! "password" = None
  ∧ Track.author r !! "email" = None
  ∧ Track.author r !! "followers" = None
  ∧ Track.author r !! "likedPlaylists" = None
  ∧ Track.author r !! "likedTracks" = None
  ∧ ∃ t u, t ∈ db_tracks db ∧ u ∈ db_users db
           ∧ Track._id r = Track._id t
           ∧ u !! "_id" = Some (VId (Track.author t))
           ∧ Track.author r !! "_id" = u !! "_id"
           ∧ Track.author r !! "profile" = u !! "profile".
Proof.
  intros Hl Hr.
  destruct (listing_rows s q user db rows r Hl Hr)
    as (t & u & Ht & Hu & _ & Ho & ->).
  destruct (row_author s user t u) as [-> ->].
  repeat split;
    try (apply summary_hidden; unfold hidden_author_fields;
         rewrite list_elem_of_In; simpl; tauto).
  exists t, u. apply owns_spec in Ho.
  repeat split; auto;
    apply summary_other; unfold hidden_author_fields;
    rewrite list_elem_of_In; simpl; intuition discriminate.
Qed.

Lemma author_summary_fields_witness :
  (listing Global Sample.first_two Sample.me Sample.db
     = Json (Sample.rows_of (getTracks Sample.first_two Sample.me Sample.db))
   ∧ Sample.first_row
       ∈ Sample.rows_of (getTracks Sample.first_two Sample.me Sample.db))
  ∧ Track.author Sample.first_row !! "password" = None
  ∧ Track.author Sample.first_row !! "email" = None
  ∧ Track.author Sample.first_row !! "followers" = None
  ∧ Track.author Sample.first_row !! "likedPlaylists" = None
  ∧ Track.author Sample.first_row !! "likedTracks" = None
  ∧ ∃ t u, t ∈ db_tracks Sample.db ∧ u ∈ db_users Sample.db
           ∧ Track._id Sample.first_row = Track._id t
           ∧ u !! "_id" = Some (VId (Track.author t))
           ∧ Track.author Sample.first_row !! "_id" = u !! "_id"
           ∧ Track.author Sample.first_row !! "profile" = u !! "profile".
Proof.
  assert (H : listing Global Sample.first_two Sample.me Sample.db
    = Json (Sample.rows_of (getTracks Sample.first_two Sample.me Sample.db)))
    by (vm_compute; reflexivity).
  assert (Hr : Sample.first_row
    ∈ Sample.rows_of (getTracks Sample.first_two Sample.me Sample.db)).
  { apply (list_elem_of_lookup_2 _ 0%nat). vm_compute. reflexivity. }
  exact (conj (conj H Hr)
           (author_summary_fields Global Sample.first_two Sample.me Sample.db
              _ Sample.first_row H Hr)).
Defined.

(** C4.  The listings expose more than public profile fields.  The
    projection removes the password and the email of the author, but not
    the reset token: for a stored user that once asked for a password
    reset, the author summary in the first record of the global listing
    still holds [passwordResetToken] and [passwordResetExpires], which
    are no public profile fields. *)
Lemma author_summary_exposes_reset_token :
  ∃ r, Sample.rows_of (getTracks Sample.first_two Sample.me Sample.db) !! 0%nat
         = Some r
       ∧ Track.author r !! "passwordResetToken" = Some (VStr "reset-token")
       ∧ Track.author r !! "passwordResetExpires" = Some (VDate 1700000000)
       ∧ ¬ only_public_profile (Track.author r).
Proof.
  eexists. split; [vm_compute; reflexivity|].
  assert (Htok :
    Track.author
      (row Global Sample.me (Sample.track 2 100 [1; 2; 3; 4; 9]%N 11)
         (User.to_document Sample.alice)) !! "passwordResetToken"
    = Some (VStr "reset-token")) by (vm_compute; reflexivity).
  split; [exact Htok|]. split; [vm_compute; reflexivity|].
  intros Hpub.
  specialize (Hpub "passwordResetToken" (ex_intro _ _ Htok)).
  unfold public_profile_fields in Hpub. rewrite list_elem_of_In in Hpub.
  simpl in Hpub. intuition discriminate.
Qed.

(** ** Collections *)

Section CollectionFacts.
Context {D : Type} (id_of : D → ObjectId).

Lemma findById_id (id : ObjectId) (c : list D) (d : D) :
  findById id_of id c = Some d → id_of d = id ∧ d ∈ c.
Proof.
  unfold findById. intros H. apply find_some in H as [Hin Heq].
  apply N.eqb_eq in Heq. rewrite list_elem_of_In. auto.
Qed.

Lemma findById_updateOne (id : ObjectId) (f : D → D) (c : list D) (d : D) :
  (∀ x, id_of (f x) = id_of x) →
  findById id_of id c = Some d →
  findById id_of id (updateOne id_of id f c) = Some (f d).
Proof.
  intros Hf. unfold findById.
  induction c as [|x c IH]; simpl; [discriminate|].
  destruct (N.eqb_spec (id_of x) id) as [Hx|Hx]; simpl.
  - intros [= ->]. rewrite Hf. destruct (N.eqb_spec (id_of d) id); congruence.
  - destruct (N.eqb_spec (id_of x) id); [congruence|]. exact IH.
Qed.

Lemma findById_updateOne_ne (id id' : ObjectId) (f : D → D) (c : list D) :
  (∀ x, id_of (f x) = id_of x) → id' ≠ id →
  findById id_of id' (updateOne id_of id f c) = findById id_of id' c.
Proof.
  intros Hf Hne. unfold findById.
  induction c as [|x c IH]; simpl; [reflexivity|].
  destruct (N.eqb_spec (id_of x) id) as [Hx|Hx]; simpl.
  - rewrite Hf.
    destruct (N.eqb_spec (id_of x) id'); [congruence | reflexivity].
  - destruct (N.eqb_spec (id_of x) id'); [reflexivity | exact IH].
Qed.

Lemma Forall_updateOne (P : D → Prop) (id : ObjectId) (f : D → D) (c : list D) :
  (∀ x, P x → P (f x)) → Forall P c → Forall P (updateOne id_of id f c).
Proof.
  intros Hf Hc. induction Hc as [|x c Hx Hc IH]; simpl; [constructor|].
  destruct (N.eqb (id_of x) id); constructor; auto.
Qed.

Lemma removeOne_split (id : ObjectId) (c : list D) (d : D) :
  findById id_of id c = Some d →
  ∃ before after,
    c = before ++ d :: after
    ∧ removeOne id_of id c = before ++ after
    ∧ findById id_of id before = None.
Proof.
  unfold findById.
  induction c as [|x c IH]; simpl; [discriminate|].
  destruct (N.eqb_spec (id_of x) id) as [Hx|Hx].
  - intros [= ->]. exists [], c. auto.
  - intros Hd. destruct (IH Hd) as (before & after & -> & Hr & Hn).
    exists (x :: before), after. simpl. rewrite Hr.
    destruct (N.eqb_spec (id_of x) id); [congruence|]. auto.
Qed.

Lemma updateOne_ext (id : ObjectId) (f g : D → D) (c : list D) (d : D) :
  findById id_of id c = Some d → f d = g d →
  updateOne id_of id f c = updateOne id_of id g c.
Proof.
  unfold findById. intros Hd Hfg.
  induction c as [|x c IH]; simpl in *; [reflexivity|].
  destruct (N.eqb (id_of x) id).
  - injection Hd as ->. by rewrite Hfg.
  - by rewrite IH.
Qed.

Lemma Forall_removeOne (P : D → Prop) (id : ObjectId) (c : list D) :
  Forall P c → Forall P (removeOne id_of id c).
Proof.
  intros Hc. induction Hc as [|x c Hx Hc IH]; simpl; [constructor|].
  destruct (N.eqb (id_of x) id); [assumption | constructor; auto].
Qed.

End CollectionFacts.

(** ** The update operators on a liker array *)

Lemma elem_of_pull (x v : ObjectId) (arr : list ObjectId) :
  v ∈ pull x arr ↔ v ≠ x ∧ v ∈ arr.
Proof.
  unfold pull. rewrite !list_elem_of_In, filter_In.
  destruct (N.eqb_spec v x); simpl; intuition congruence.
Qed.

Lemma elem_of_addToSet (x v : ObjectId) (arr : list ObjectId) :
  v ∈ addToSet x arr ↔ v = x ∨ v ∈ arr.
Proof.
  unfold addToSet. case_bool_decide as Hx.
  - split; [auto | intros [->|]; auto].
  - rewrite elem_of_app, list_elem_of_singleton. tauto.
Qed.

Lemma NoDup_pull (x : ObjectId) (arr : list ObjectId) :
  NoDup arr → NoDup (pull x arr).
Proof.
  unfold pull. intros H. apply NoDup_ListNoDup.
  apply List.NoDup_filter. by apply NoDup_ListNoDup.
Qed.

Lemma NoDup_addToSet (x : ObjectId) (arr : list ObjectId) :
  NoDup arr → NoDup (addToSet x arr).
Proof.
  unfold addToSet. intros H. case_bool_decide as Hx; [assumption|].
  apply NoDup_app. repeat split; auto.
  - intros y Hy Hy'. apply list_elem_of_singleton in Hy'. congruence.
  - apply NoDup_singleton.
Qed.

Lemma elem_of_toggle (x v : ObjectId) (arr : list ObjectId) :
  v ∈ toggle x arr ↔ (v = x ∧ x ∉ arr) ∨ (v ≠ x ∧ v ∈ arr).
Proof.
  unfold toggle. case_bool_decide as Hx.
  - rewrite elem_of_pull. intuition congruence.
  - rewrite elem_of_addToSet.
    destruct (decide (v = x)) as [->|Hne]; intuition congruence.
Qed.

Lemma toggle_toggle (x v : ObjectId) (arr : list ObjectId) :
  v ∈ toggle x (toggle x arr) ↔ v ∈ arr.
Proof.
  rewrite !elem_of_toggle.
  destruct (decide (v = x)) as [->|Hne]; [|intuition congruence].
  destruct (decide (x ∈ arr)); intuition congruence.
Qed.

Lemma NoDup_toggle (x : ObjectId) (arr : list ObjectId) :
  NoDup arr → NoDup (toggle x arr).
Proof.
  unfold toggle. case_bool_decide; [apply NoDup_pull | apply NoDup_addToSet].
Qed.

(** ** The mutations, case by case *)

Lemma falsy_spec (name : option string) :
  falsy name || isEmpty (default "" name) = true
  ↔ name = None ∨ name = Some ""%string.
Proof.
  destruct name as [s|]; simpl.
  - destruct s; simpl; split; intros H; auto; try discriminate;
      destruct H; congruence.
  - tauto.
Qed.

Lemma postTrack_invalid (e : env) (id : ObjectId) (user : User.IUser)
    (name : option string) (db : Db) :
  name = None ∨ name = Some ""%string →
  postTrack e id user name db
  = (Throw {| message := "Name is not valid"; status := 404 |}, db).
Proof.
  intros H. apply falsy_spec in H. unfold postTrack. rewrite H. reflexivity.
Qed.

Lemma postTrack_valid (e : env) (id : ObjectId) (user : User.IUser)
    (s : string) (db : Db) :
  s ≠ ""%string →
  postTrack e id user (Some s) db
  = match findById Playlist._id id (db_playlists db) with
    | None =>
        (Throw {| message := "Playlist not found"; status := 404 |}, db)
    | Some p =>
        let track : ITrack :=
          Track.Doc (newId e) s (Playlist.img p) (User.id user)
            (Playlist._id p) [] None (now e) in
        (Json track,
         {| db_tracks := db_tracks db ++ [track];
            db_playlists :=
              updateOne Playlist._id (Playlist._id p)
                (fun p' =>
                   {| Playlist._id := Playlist._id p';
                      Playlist.img := Playlist.img p';
                      Playlist.tracks := push (newId e) (Playlist.tracks p') |})
                (db_playlists db);
            db_users := db_users db |})
    end.
Proof.
  intros Hs. unfold postTrack.
  assert (Hf : falsy (Some s) || isEmpty (default "" (Some s)) = false).
  { destruct (falsy (Some s) || isEmpty (default "" (Some s))) eqn:E;
      [|reflexivity].
    apply falsy_spec in E as [E|E]; congruence. }
  rewrite Hf. unfold bind, Playlist_findById.
  destruct (findById Playlist._id id (db_playlists db)); reflexivity.
Qed.

Lemma putTrackLike_eq (id : ObjectId) (user : User.IUser) (db : Db) :
  putTrackLike id user db
  = match findById Track._id id (db_tracks db) with
    | None => (Throw {| message := "Track not found"; status := 404 |}, db)
    | Some t =>
        (Json (negb (bool_decide (User.id user ∈ Track.liked t))),
         {| db_tracks :=
              updateOne Track._id (Track._id t)
                (fun t' =>
                   Track.set_liked (toggle (User.id user) (Track.liked t')) t')
                (db_tracks db);
            db_playlists := db_playlists db;
            db_users := db_users db |})
    end.
Proof.
  unfold putTrackLike, bind, Track_findById.
  destruct (findById Track._id id (db_tracks db)) as [t|] eqn:Ht;
    [|reflexivity].
  pose proof (findById_id _ _ _ _ Ht) as [Hid Hin].
  rewrite <- Hid in Ht.
  unfold toggle.
  destruct (bool_decide (User.id user ∈ Track.liked t)) eqn:Hl;
    unfold Track_updateOne, ret; simpl; do 2 f_equal;
    apply (updateOne_ext Track._id _ _ _ _ t Ht); rewrite Hl; reflexivity.
Qed.

Lemma deleteTrack_eq (id : ObjectId) (user : User.IUser) (db : Db) :
  deleteTrack id user db
  = match findById Track._id id (db_tracks db) with
    | None => (Throw {| message := "Playlist not found"; status := 404 |}, db)
    | Some t =>
        if loose_neq (Track.author t) user
           && negb (String.eqb (User.role user) "ADMIN")
        then (Throw {| message := "Dont have permission"; status := 403 |}, db)
        else
          (Json t,
           {| db_tracks := removeOne Track._id id (db_tracks db);
              db_playlists := db_playlists db;
              db_users := db_users db |})
    end.
Proof.
  unfold deleteTrack, bind, Track_findById.
  destruct (findById Track._id id (db_tracks db)) as [t|] eqn:Ht;
    [|reflexivity].
  apply findById_id in Ht as [<- _].
  destruct (loose_neq (Track.author t) user
            && negb (String.eqb (User.role user) "ADMIN")); reflexivity.
Qed.

Lemma denied_spec (t : ITrack) (user : User.IUser) :
  loose_neq (Track.author t) user
  && negb (String.eqb (User.role user) "ADMIN") = true
  ↔ (User.hydrated user = true ∨ Track.author t ≠ User.id user)
    ∧ User.role user ≠ "ADMIN"%string.
Proof.
  unfold loose_neq. rewrite andb_true_iff, negb_true_iff.
  destruct (User.hydrated user),
           (N.eqb_spec (Track.author t) (User.id user)),
           (String.eqb_spec (User.role user) "ADMIN");
    simpl; intuition congruence.
Qed.

(** ** Likes *)

(** C5. Toggling the like of a track that does not exist throws the
    not-found error and writes nothing.  Toggling the like of an existing
    track flips the requester's membership among its likers, leaves every
    other user's membership as it was, and answers the liked state after
    the toggle; a second toggle brings the likers back to the original
    membership. *)
Theorem putTrackLike_toggles (id : ObjectId) (user : User.IUser) (db : Db) :
  (findById Track._id id (db_tracks db) = None →
   putTrackLike id user db
   = (Throw {| message := "Track not found"; status := 404 |}, db))
  ∧ ∀ t, findById Track._id id (db_tracks db) = Some t →
      ∃ t' t'',
        findById Track._id id (db_tracks (snd (putTrackLike id user db)))
          = Some t'
        ∧ (User.id user ∈ Track.liked t' ↔ User.id user ∉ Track.liked t)
        ∧ (∀ v, v ≠ User.id user →
             (v ∈ Track.liked t' ↔ v ∈ Track.liked t))
        ∧ fst (putTrackLike id user db)
            = Json (bool_decide (User.id user ∈ Track.liked t'))
        ∧ findById Track._id id
            (db_tracks
               (snd (putTrackLike id user (snd (putTrackLike id user db)))))
          = Some t''
        ∧ ∀ v, v ∈ Track.liked t'' ↔ v ∈ Track.liked t.
Proof.
  split.
  - intros Hn. rewrite putTrackLike_eq, Hn. reflexivity.
  - intros t Ht.
    set (f := fun t' : ITrack =>
                Track.set_liked (toggle (User.id user) (Track.liked t')) t').
    assert (Hf : ∀ x, Track._id (f x) = Track._id x) by reflexivity.
    pose proof (findById_id _ _ _ _ Ht) as [Hid _].
    assert (H1 : putTrackLike id user db
      = (Json (negb (bool_decide (User.id user ∈ Track.liked t))),
         {| db_tracks := updateOne Track._id id f (db_tracks db);
            db_playlists := db_playlists db;
            db_users := db_users db |})).
    { rewrite putTrackLike_eq, Ht, Hid. reflexivity. }
    pose proof (findById_updateOne Track._id id f _ _ Hf Ht) as Ht'.
    assert (H2 : putTrackLike id user (snd (putTrackLike id user db))
      = (Json (negb (bool_decide (User.id user ∈ Track.liked (f t)))),
         {| db_tracks :=
              updateOne Track._id id f
                (updateOne Track._id id f (db_tracks db));
            db_playlists := db_playlists db;
            db_users := db_users db |})).
    { rewrite H1. simpl. rewrite putTrackLike_eq. simpl. rewrite Ht'.
      change (Track._id (f t)) with (Track._id t). rewrite Hid. reflexivity. }
    exists (f t), (f (f t)). rewrite H2, H1. simpl.
    split; [exact Ht'|].
    split; [rewrite elem_of_toggle; intuition congruence|].
    split; [intros v Hv; rewrite elem_of_toggle; intuition congruence|].
    split.
    + f_equal. unfold toggle.
      destruct (bool_decide (User.id user ∈ Track.liked t)) eqn:Hl; simpl;
        symmetry.
      * apply bool_decide_eq_false_2. rewrite elem_of_pull. tauto.
      * apply bool_decide_eq_true_2. rewrite elem_of_addToSet. auto.
    + split; [by apply (findById_updateOne Track._id id f)|].
      intros v. apply toggle_toggle.
Qed.

Lemma putTrackLike_toggles_witness :
  findById Track._id 2%N (db_tracks Sample.db)
    = Some (Sample.track 2 100 [1; 2; 3; 4; 9]%N 11)
  ∧ ∃ t' t'',
      findById Track._id 2%N
        (db_tracks (snd (putTrackLike 2%N Sample.me Sample.db))) = Some t'
      ∧ (User.id Sample.me ∈ Track.liked t'
         ↔ User.id Sample.me ∉ [1; 2; 3; 4; 9]%N)
      ∧ (∀ v, v ≠ User.id Sample.me →
           (v ∈ Track.liked t' ↔ v ∈ [1; 2; 3; 4; 9]%N))
      ∧ fst (putTrackLike 2%N Sample.me Sample.db)
          = Json (bool_decide (User.id Sample.me ∈ Track.liked t'))
      ∧ findById Track._id 2%N
          (db_tracks
             (snd (putTrackLike 2%N Sample.me
                     (snd (putTrackLike 2%N Sample.me Sample.db)))))
        = Some t''
      ∧ ∀ v, v ∈ Track.liked t'' ↔ v ∈ [1; 2; 3; 4; 9]%N.
Proof.
  assert (H : findById Track._id 2%N (db_tracks Sample.db)
              = Some (Sample.track 2 100 [1; 2; 3; 4; 9]%N 11))
    by reflexivity.
  split; [exact H|].
  exact (proj2 (putTrackLike_toggles 2%N Sample.me Sample.db) _ H).
Defined.

Example sample_toggle :
  fst (putTrackLike 2%N Sample.me Sample.db) = Json false
  ∧ fst (putTrackLike 1%N Sample.me Sample.db) = Json true
  ∧ fst (putTrackLike 8%N Sample.me Sample.db)
    = Throw {| message := "Track not found"; status := 404 |}.
Proof. repeat split. Qed.

(** ** Creating a track *)

(** C6. A request whose name is missing or the empty string fails with
    the validation error and leaves the database as it was; a request
    with a name for a playlist that does not exist fails with the
    not-found error, again writing nothing; any other request stores a
    new track with that name, the playlist's image, the requester as
    author and no likers, appends its identity to the track sequence of
    the playlist and to no other, and answers the created track. *)
Theorem postTrack_cases (e : env) (id : ObjectId) (user : User.IUser)
    (name : option string) (db : Db) :
  (name = None ∨ name = Some ""%string →
   postTrack e id user name db
   = (Throw {| message := "Name is not valid"; status := 404 |}, db))
  ∧ (∀ s, name = Some s → s ≠ ""%string →
     findById Playlist._id id (db_playlists db) = None →
     postTrack e id user name db
     = (Throw {| message := "Playlist not found"; status := 404 |}, db))
  ∧ ∀ s p, name = Some s → s ≠ ""%string →
     findById Playlist._id id (db_playlists db) = Some p →
     ∃ track db',
       postTrack e id user name db = (Json track, db')
       ∧ track = Track.Doc (newId e) s (Playlist.img p) (User.id user)
                   (Playlist._id p) [] None (now e)
       ∧ db_tracks db' = db_tracks db ++ [track]
       ∧ findById Playlist._id id (db_playlists db')
         = Some {| Playlist._id := Playlist._id p;
                   Playlist.img := Playlist.img p;
                   Playlist.tracks := Playlist.tracks p ++ [Track._id track] |}
       ∧ (∀ id', id' ≠ id →
            findById Playlist._id id' (db_playlists db')
            = findById Playlist._id id' (db_playlists db))
       ∧ db_users db' = db_users db.
Proof.
  split; [apply postTrack_invalid|]. split.
  - intros s -> Hs Hp. rewrite (postTrack_valid _ _ _ _ _ Hs), Hp. reflexivity.
  - intros s p -> Hs Hp. rewrite (postTrack_valid _ _ _ _ _ Hs), Hp.
    pose proof (findById_id _ _ _ _ Hp) as [Hid _].
    eexists _, _. split; [reflexivity|]. split; [reflexivity|]. simpl.
    split; [reflexivity|]. subst id. split.
    + rewrite (findById_updateOne Playlist._id _ _ _ p); auto.
    + split; [|reflexivity]. intros id' Hne.
      apply findById_updateOne_ne; auto.
Qed.

Lemma postTrack_cases_witness :
  (Some "tune"%string = Some "tune"%string ∧ "tune"%string ≠ ""%string
   ∧ findById Playlist._id 1%N (db_playlists Sample.db) = Some Sample.playlist)
  ∧ ∃ track db',
      postTrack Sample.clock 1%N Sample.me (Some "tune"%string) Sample.db
        = (Json track, db')
      ∧ track = Track.Doc 6%N "tune" "cover.png" 9%N 1%N [] None 20
      ∧ db_tracks db' = db_tracks Sample.db ++ [track]
      ∧ findById Playlist._id 1%N (db_playlists db')
        = Some {| Playlist._id := 1%N; Playlist.img := "cover.png";
                  Playlist.tracks := [1; 2; 3; 4; 5]%N ++ [Track._id track] |}
      ∧ (∀ id', id' ≠ 1%N →
           findById Playlist._id id' (db_playlists db')
           = findById Playlist._id id' (db_playlists Sample.db))
      ∧ db_users db' = db_users Sample.db.
Proof.
  assert (H1 : Some "tune"%string = Some "tune"%string) by reflexivity.
  assert (H2 : "tune"%string ≠ ""%string) by discriminate.
  assert (H3 : findById Playlist._id 1%N (db_playlists Sample.db)
               = Some Sample.playlist) by reflexivity.
  split; [auto|].
  exact (proj2 (proj2 (postTrack_cases Sample.clock 1%N Sample.me
                         (Some "tune"%string) Sample.db))
           "tune"%string Sample.playlist H1 H2 H3).
Defined.

Example sample_post_invalid :
  postTrack Sample.clock 1%N Sample.me (Some ""%string) Sample.db
    = (Throw {| message := "Name is not valid"; status := 404 |}, Sample.db)
  ∧ postTrack Sample.clock 1%N Sample.me None Sample.db
    = (Throw {| message := "Name is not valid"; status := 404 |}, Sample.db)
  ∧ postTrack Sample.clock 3%N Sample.me (Some "tune"%string) Sample.db
    = (Throw {| message := "Playlist not found"; status := 404 |}, Sample.db).
Proof. repeat split. Qed.

(** ** Deleting a track *)

(** C7.  The handler does not let every author delete: the test
    [track.author != user._id] compares the ObjectId object of the stored
    track with the [_id] of the requester, and when the requester is a
    hydrated document the two are different objects whatever identity
    they hold.  The author of a track who is no administrator then gets
    the permission error with status 403, and the track stays stored,
    where the claim has the track removed and answered. *)
Theorem deleteTrack_refuses_author_document (id : ObjectId)
    (user : User.IUser) (db : Db) (t : ITrack) :
  findById Track._id id (db_tracks db) = Some t →
  Track.author t = User.id user →
  User.hydrated user = true →
  User.role user ≠ "ADMIN"%string →
  deleteTrack id user db
  = (Throw {| message := "Dont have permission"; status := 403 |}, db)
  ∧ findById Track._id id (db_tracks (snd (deleteTrack id user db))) = Some t.
Proof.
  intros Ht Ha Hh Hr.
  assert (H : deleteTrack id user db
    = (Throw {| message := "Dont have permission"; status := 403 |}, db)).
  { rewrite deleteTrack_eq, Ht.
    rewrite (proj2 (denied_spec t user)) by auto. reflexivity. }
  split; [exact H|]. rewrite H. exact Ht.
Qed.

Lemma deleteTrack_refuses_author_document_witness :
  (findById Track._id 1%N (db_tracks Sample.db)
     = Some (Sample.track 1 100 [1; 2; 3; 4; 5]%N 10)
   ∧ Track.author (Sample.track 1 100 [1; 2; 3; 4; 5]%N 10)
     = User.id Sample.alice_req
   ∧ User.hydrated Sample.alice_req = true
   ∧ User.role Sample.alice_req ≠ "ADMIN"%string)
  ∧ deleteTrack 1%N Sample.alice_req Sample.db
    = (Throw {| message := "Dont have permission"; status := 403 |}, Sample.db)
  ∧ findById Track._id 1%N
      (db_tracks (snd (deleteTrack 1%N Sample.alice_req Sample.db)))
    = Some (Sample.track 1 100 [1; 2; 3; 4; 5]%N 10).
Proof.
  assert (H1 : findById Track._id 1%N (db_tracks Sample.db)
               = Some (Sample.track 1 100 [1; 2; 3; 4; 5]%N 10))
    by reflexivity.
  assert (H2 : Track.author (Sample.track 1 100 [1; 2; 3; 4; 5]%N 10)
               = User.id Sample.alice_req) by reflexivity.
  assert (H3 : User.hydrated Sample.alice_req = true) by reflexivity.
  assert (H4 : User.role Sample.alice_req ≠ "ADMIN"%string) by discriminate.
  exact (conj (conj H1 (conj H2 (conj H3 H4)))
           (deleteTrack_refuses_author_document 1%N Sample.alice_req
              Sample.db _ H1 H2 H3 H4)).
Defined.

(** X21. What [deleteTrack] does, case by case.  A requester who is
    neither the author of the track nor an administrator gets the
    permission error with status 403, and the database stays as it was;
    for an absent track the handler fails with an error of status 404,
    writing nothing; an administrator, and an author whose [_id] is a
    string, get the track as it was stored, and that document, and no
    other, leaves the collection. *)
Theorem deleteTrack_cases (id : ObjectId) (user : User.IUser) (db : Db) :
  (∀ t, findById Track._id id (db_tracks db) = Some t →
     Track.author t ≠ User.id user → User.role user ≠ "ADMIN"%string →
     deleteTrack id user db
     = (Throw {| message := "Dont have permission"; status := 403 |}, db))
  ∧ (findById Track._id id (db_tracks db) = None →
     ∃ msg, deleteTrack id user db
            = (Throw {| message := msg; status := 404 |}, db))
  ∧ ∀ t, findById Track._id id (db_tracks db) = Some t →
     User.role user = "ADMIN"%string
     ∨ (User.hydrated user = false ∧ Track.author t = User.id user) →
     ∃ before after,
       deleteTrack id user db
       = (Json t,
          {| db_tracks := before ++ after;
             db_playlists := db_playlists db;
             db_users := db_users db |})
       ∧ db_tracks db = before ++ t :: after
       ∧ findById Track._id id before = None.
Proof.
  split; [|split].
  - intros t Ht Ha Hr. rewrite deleteTrack_eq, Ht.
    rewrite (proj2 (denied_spec t user)) by auto. reflexivity.
  - intros Hn. rewrite deleteTrack_eq, Hn. eauto.
  - intros t Ht Hok. rewrite deleteTrack_eq, Ht.
    destruct (loose_neq (Track.author t) user
              && negb (String.eqb (User.role user) "ADMIN")) eqn:Hd.
    + apply denied_spec in Hd. destruct Hd as [[Hh|Ha] Hr];
        destruct Hok as [Hadm|[Hp Hau]]; congruence.
    + destruct (removeOne_split Track._id id _ _ Ht)
        as (before & after & Hc & Hr & Hb).
      exists before, after. rewrite Hr. auto.
Qed.

Lemma deleteTrack_cases_witness :
  (findById Track._id 4%N (db_tracks Sample.db)
     = Some (Sample.track 4 101 [1]%N 13)
   ∧ Track.author (Sample.track 4 101 [1]%N 13) ≠ User.id Sample.me
   ∧ User.role Sample.me ≠ "ADMIN"%string)
  ∧ deleteTrack 4%N Sample.me Sample.db
    = (Throw {| message := "Dont have permission"; status := 403 |}, Sample.db)
  ∧ (∃ before after,
       deleteTrack 4%N Sample.boss Sample.db
       = (Json (Sample.track 4 101 [1]%N 13),
          {| db_tracks := before ++ after;
             db_playlists := db_playlists Sample.db;
             db_users := db_users Sample.db |})
       ∧ db_tracks Sample.db = before ++ Sample.track 4 101 [1]%N 13 :: after
       ∧ findById Track._id 4%N before = None)
  ∧ ∃ before after,
      deleteTrack 1%N Sample.alice_plain Sample.db
      = (Json (Sample.track 1 100 [1; 2; 3; 4; 5]%N 10),
         {| db_tracks := before ++ after;
            db_playlists := db_playlists Sample.db;
            db_users := db_users Sample.db |})
      ∧ db_tracks Sample.db
        = before ++ Sample.track 1 100 [1; 2; 3; 4; 5]%N 10 :: after
      ∧ findById Track._id 1%N before = None.
Proof.
  assert (H1 : findById Track._id 4%N (db_tracks Sample.db)
               = Some (Sample.track 4 101 [1]%N 13)) by reflexivity.
  assert (H2 : Track.author (Sample.track 4 101 [1]%N 13)
               ≠ User.id Sample.me) by discriminate.
  assert (H3 : User.role Sample.me ≠ "ADMIN"%string) by discriminate.
  assert (H4 : User.role Sample.boss = "ADMIN"%string
               ∨ (User.hydrated Sample.boss = false
                  ∧ Track.author (Sample.track 4 101 [1]%N 13)
                    = User.id Sample.boss))
    by (left; reflexivity).
  assert (H5 : findById Track._id 1%N (db_tracks Sample.db)
               = Some (Sample.track 1 100 [1; 2; 3; 4; 5]%N 10))
    by reflexivity.
  assert (H6 : User.role Sample.alice_plain = "ADMIN"%string
               ∨ (User.hydrated Sample.alice_plain = false
                  ∧ Track.author (Sample.track 1 100 [1; 2; 3; 4; 5]%N 10)
                    = User.id Sample.alice_plain))
    by (right; split; reflexivity).
  split; [auto|]. split; [|split].
  - exact (proj1 (deleteTrack_cases 4%N Sample.me Sample.db) _ H1 H2 H3).
  - exact (proj2 (proj2 (deleteTrack_cases 4%N Sample.boss Sample.db))
             _ H1 H4).
  - exact (proj2 (proj2 (deleteTrack_cases 1%N Sample.alice_plain Sample.db))
             _ H5 H6).
Defined.

(** C10. Deleting a track whose identity resolves to no stored track
    throws the error with status 404 and the message [Playlist not found],
    and the database stays as it was. *)
Theorem deleteTrack_absent_message (id : ObjectId) (user : User.IUser)
    (db : Db) :
  findById Track._id id (db_tracks db) = None →
  deleteTrack id user db
  = (Throw {| message := "Playlist not found"; status := 404 |}, db).
Proof. intros Hn. rewrite deleteTrack_eq, Hn. reflexivity. Qed.

Lemma deleteTrack_absent_message_witness :
  findById Track._id 8%N (db_tracks Sample.db) = None
  ∧ deleteTrack 8%N Sample.me Sample.db
    = (Throw {| message := "Playlist not found"; status := 404 |}, Sample.db).
Proof.
  assert (H : findById Track._id 8%N (db_tracks Sample.db) = None)
    by reflexivity.
  split; [exact H|].
  exact (deleteTrack_absent_message 8%N Sample.me Sample.db H).
Defined.

(** ** The invariant of the liker arrays *)

Lemma sample_liked_unique : liked_unique Sample.db.
Proof.
  unfold liked_unique. apply (bool_decide_unpack _). vm_compute. exact I.
Qed.

(** C8. Every operation keeps each liker array free of repetitions: the
    track that [postTrack] creates starts with no likers, the toggle adds
    the requester only when absent and otherwise removes every occurrence,
    and a deletion changes no array. *)
Theorem liked_unique_preserved (db : Db) :
  liked_unique db →
  (∀ e id user name,
     liked_unique (snd (postTrack e id user name db))
     ∧ ∀ track, fst (postTrack e id user name db) = Json track →
         Track.liked track = [])
  ∧ (∀ id user, liked_unique (snd (putTrackLike id user db)))
  ∧ (∀ id user, liked_unique (snd (deleteTrack id user db))).
Proof.
  unfold liked_unique. intros Hinv. split; [|split].
  - intros e id user name.
    destruct name as [s|].
    + destruct (decide (s = ""%string)) as [->|Hs].
      * rewrite postTrack_invalid by auto. simpl. split; [assumption|].
        discriminate.
      * rewrite (postTrack_valid _ _ _ _ _ Hs).
        destruct (findById Playlist._id id (db_playlists db)); simpl.
        -- split.
           ++ apply Forall_app. split; [assumption|].
              constructor; [apply NoDup_nil_2 | constructor].
           ++ intros track [= <-]. reflexivity.
        -- split; [assumption | discriminate].
    + rewrite postTrack_invalid by auto. simpl. split; [assumption|].
      discriminate.
  - intros id user. rewrite putTrackLike_eq.
    destruct (findById Track._id id (db_tracks db)); simpl; [|assumption].
    apply Forall_updateOne; [|assumption].
    intros x Hx. simpl. by apply NoDup_toggle.
  - intros id user. rewrite deleteTrack_eq.
    destruct (findById Track._id id (db_tracks db)) as [t|]; simpl;
      [|assumption].
    destruct (loose_neq (Track.author t) user
              && negb (String.eqb (User.role user) "ADMIN"));
      simpl; [assumption|].
    by apply Forall_removeOne.
Qed.

Lemma liked_unique_preserved_witness :
  liked_unique Sample.db
  ∧ liked_unique
      (snd (postTrack Sample.clock 1%N Sample.me (Some "tune"%string)
              Sample.db))
  ∧ liked_unique (snd (putTrackLike 1%N Sample.me Sample.db))
  ∧ liked_unique (snd (putTrackLike 2%N Sample.me Sample.db))
  ∧ liked_unique (snd (deleteTrack 4%N Sample.boss Sample.db)).
Proof.
  pose proof (liked_unique_preserved Sample.db sample_liked_unique)
    as (Hpost & Hlike & Hdel).
  exact (conj sample_liked_unique
          (conj (proj1 (Hpost Sample.clock 1%N Sample.me (Some "tune"%string)))
          (conj (Hlike 1%N Sample.me)
          (conj (Hlike 2%N Sample.me) (Hdel 4%N Sample.boss))))).
Defined.

(** ** The avatar *)

(** The test suite of RFC 1321. *)
Example md5_test_suite :
  Md5.md5_hex "" = "d41d8cd98f00b204e9800998ecf8427e"%string
  ∧ Md5.md5_hex "a" = "0cc175b9c0f1b6a831c399e269772661"%string
  ∧ Md5.md5_hex "abc" = "900150983cd24fb0d6963f7d28e17f72"%string
  ∧ Md5.md5_hex "message digest" = "f96b697d7cb7938d525a2f31aaf161d0"%string
  ∧ Md5.md5_hex
      "12345678901234567890123456789012345678901234567890123456789012345678901234567890"
    = "57edf4a22be3c955ac49da2e2107b67a"%string.
Proof. vm_compute. repeat split. Qed.

Lemma length_string_of_list_ascii (l : list ascii) :
  String.length (string_of_list_ascii l) = length l.
Proof. induction l as [|c l IH]; simpl; [reflexivity|]. by rewrite IH. Qed.

Lemma length_le_bytes (n : nat) (x : Z) : length (Md5.le_bytes n x) = n.
Proof.
  revert x. induction n as [|n IH]; intros x; simpl; [reflexivity|].
  by rewrite IH.
Qed.

Lemma le_bytes_range (n : nat) (x : Z) :
  Forall (fun b => 0 ≤ b < 256) (Md5.le_bytes n x).
Proof.
  revert x. induction n as [|n IH]; intros x; simpl; constructor.
  - apply Z.mod_pos_bound. lia.
  - apply IH.
Qed.

Lemma hexdigit_is_hex (x : Z) :
  0 ≤ x < 16 → is_hex_digit (Md5.hexdigit x) = true.
Proof.
  intros Hx. unfold Md5.hexdigit.
  assert (Hn : (Z.to_nat x < 16)%nat) by lia.
  generalize dependent (Z.to_nat x). intros n Hn.
  do 16 (destruct n as [|n]; [reflexivity|]). lia.
Qed.

Lemma hex_shape (bs : list Z) :
  Forall (fun b => 0 ≤ b < 256) bs →
  String.length (Md5.hex bs) = (2 * length bs)%nat
  ∧ forallb is_hex_digit (list_ascii_of_string (Md5.hex bs)) = true.
Proof.
  intros Hbs. unfold Md5.hex.
  rewrite length_string_of_list_ascii, list_ascii_of_string_of_list_ascii.
  induction Hbs as [|b bs Hb Hbs [IH1 IH2]]; simpl; [auto|].
  split; [lia|].
  rewrite !hexdigit_is_hex, IH2; [reflexivity| |].
  - apply Z.mod_pos_bound. lia.
  - split; [apply Z.div_pos; lia | apply Z.div_lt_upper_bound; lia].
Qed.

Lemma md5_hex_shape (s : string) :
  String.length (Md5.md5_hex s) = 32%nat
  ∧ forallb is_hex_digit (list_ascii_of_string (Md5.md5_hex s)) = true.
Proof.
  unfold Md5.md5_hex.
  destruct (hex_shape (Md5.digest (Md5.bytes_of_string s))) as [H1 H2].
  - unfold Md5.digest. rewrite !Forall_app.
    repeat split; apply le_bytes_range.
  - split; [|exact H2]. rewrite H1. unfold Md5.digest.
    rewrite !length_app, !length_le_bytes. reflexivity.
Qed.

Lemma avatar_urls_differ (r : string) :
  "https://gravatar.com/avatar/" +:+ "57c34e7c98800d72fb02dbc6b563fe23" +:+ r
  ≠ "https://gravatar.com/avatar/" +:+ "c160f8cc69a4f0bf2b0362752353d060" +:+ r.
Proof. simpl. intros H. discriminate H. Qed.

(** C9. The avatar is a function of the email, taken as it is stored, and
    of the size, 200 when omitted.  For a user whose email is set, that is
    a non-empty string, it is the fixed pattern around the MD5 hash of
    the email, 32 lowercase hexadecimal digits, and the size as it
    prints; for a user without an email it is the fallback pattern
    around the size alone, with no hash.  Two users with the same email
    get the same URL, and emails that differ only in case get different
    ones.  The hash is MD5: it gives the digests of the test suite of
    RFC 1321, and the URL of a user with the email Alice@Example.com and
    no size given is the one written out below. *)
Theorem gravatar_url (this : User.UserDocument)
    (size : option User.safe_integer) :
  (∀ e, User.email this = Some e → e ≠ ""%string →
     User.gravatar this size
     = "https://gravatar.com/avatar/" +:+ Md5.md5_hex e +:+ "?s="
         +:+ pretty (User.int_value (default User.size_200 size)) +:+ "&d=retro"
     ∧ String.length (Md5.md5_hex e) = 32%nat
     ∧ forallb is_hex_digit (list_ascii_of_string (Md5.md5_hex e)) = true)
  ∧ (User.email this = None ∨ User.email this = Some ""%string →
     User.gravatar this size
     = "https://gravatar.com/avatar/?s="
         +:+ pretty (User.int_value (default User.size_200 size)) +:+ "&d=retro")
  ∧ (∀ other, User.email other = User.email this →
       User.gravatar other size = User.gravatar this size)
  ∧ User.gravatar Sample.alice size ≠ User.gravatar Sample.alice_lower size
  ∧ Forall (fun md => Md5.md5_hex md.1 = md.2) rfc1321_test_suite
  ∧ User.gravatar Sample.alice None
    = "https://gravatar.com/avatar/57c34e7c98800d72fb02dbc6b563fe23?s=200&d=retro"%string
  ∧ User.gravatar Sample.bob None
    = "https://gravatar.com/avatar/?s=200&d=retro"%string.
Proof.
  split; [|split; [|split; [|split; [|split; [|split]]]]].
  - intros e He Hne. split; [|apply md5_hex_shape].
    unfold User.gravatar. rewrite He. simpl.
    destruct (String.eqb_spec e ""); [contradiction | reflexivity].
  - unfold User.gravatar. intros [He|He]; rewrite He; reflexivity.
  - unfold User.gravatar. intros other He. rewrite He. reflexivity.
  - assert (H1 : Md5.md5_hex "Alice@Example.com"
                 = "57c34e7c98800d72fb02dbc6b563fe23"%string)
      by (vm_compute; reflexivity).
    assert (H2 : Md5.md5_hex "alice@example.com"
                 = "c160f8cc69a4f0bf2b0362752353d060"%string)
      by (vm_compute; reflexivity).
    assert (Ha : User.gravatar Sample.alice size
      = "https://gravatar.com/avatar/" +:+ "57c34e7c98800d72fb02dbc6b563fe23"
          +:+ ("?s=" +:+ pretty (User.int_value (default User.size_200 size))
               +:+ "&d=retro"))
      by (rewrite <- H1; reflexivity).
    assert (Hb : User.gravatar Sample.alice_lower size
      = "https://gravatar.com/avatar/" +:+ "c160f8cc69a4f0bf2b0362752353d060"
          +:+ ("?s=" +:+ pretty (User.int_value (default User.size_200 size))
               +:+ "&d=retro"))
      by (rewrite <- H2; reflexivity).
    rewrite Ha, Hb. apply avatar_urls_differ.
  - unfold rfc1321_test_suite. repeat constructor; vm_compute; reflexivity.
  - vm_compute. reflexivity.
  - vm_compute. reflexivity.
Qed.

Lemma gravatar_url_witness :
  (User.email Sample.alice = Some "Alice@Example.com"%string
   ∧ "Alice@Example.com"%string ≠ ""%string)
  ∧ (User.gravatar Sample.alice (Some Sample.size_80)
     = "https://gravatar.com/avatar/" +:+ Md5.md5_hex "Alice@Example.com"
         +:+ "?s=" +:+ pretty (User.int_value (default User.size_200 (Some Sample.size_80)))
         +:+ "&d=retro"
     ∧ String.length (Md5.md5_hex "Alice@Example.com") = 32%nat
     ∧ forallb is_hex_digit
         (list_ascii_of_string (Md5.md5_hex "Alice@Example.com")) = true)
  ∧ User.email Sample.bob = None
  ∧ User.gravatar Sample.bob (Some Sample.size_80)
    = "https://gravatar.com/avatar/?s="
        +:+ pretty (User.int_value (default User.size_200 (Some Sample.size_80)))
        +:+ "&d=retro".
Proof.
  assert (H1 : User.email Sample.alice = Some "Alice@Example.com"%string)
    by reflexivity.
  assert (H2 : "Alice@Example.com"%string ≠ ""%string) by discriminate.
  assert (H3 : User.email Sample.bob = None) by reflexivity.
  exact (conj (conj H1 H2)
          (conj (proj1 (gravatar_url Sample.alice (Some Sample.size_80))
                   _ H1 H2)
          (conj H3
             (proj1 (proj2 (gravatar_url Sample.bob (Some Sample.size_80)))
                (or_introl H3))))).
Defined.

Example sample_gravatar :
  User.gravatar Sample.alice None
    = "https://gravatar.com/avatar/57c34e7c98800d72fb02dbc6b563fe23?s=200&d=retro"%string
  ∧ User.gravatar Sample.bob (Some Sample.size_80)
    = "https://gravatar.com/avatar/?s=80&d=retro"%string.
Proof. vm_compute. repeat split. Qed.

(** * Properties beyond the specification *)

(** ** Pages of a listing *)

Lemma listing_page (s : scope) (p : nat) (limit : Z) (user : User.IUser)
    (db : Db) :
  (1 ≤ p)%nat → 1 ≤ limit →
  data_of (listing s (page_query p limit) user db)
  = take (Z.to_nat limit)
      (drop ((p - 1) * Z.to_nat limit) (full_sequence s user db)).
Proof.
  intros Hp Hl. rewrite listing_normal_form, paginate_ok; simpl; [|lia..].
  unfold slice. do 2 f_equal. rewrite Z2Nat.inj_mul by lia. f_equal. lia.
Qed.

Lemma distinct_ranks_eq {D} (spec : list ((D → Agg.sortkey) * Z))
    (l : list D) (x y : D) :
  distinct_ranks spec l = true → x ∈ l → y ∈ l →
  Agg.sort_compare spec x y = Eq → x = y.
Proof.
  pose proof (order_like_sort_compare spec) as [Ho _ _].
  induction l as [|a l IH]; simpl; intros Hd Hx Hy Hc.
  - by apply elem_of_nil in Hx.
  - apply andb_true_iff in Hd as [Ha Hd].
    rewrite forallb_forall in Ha.
    apply elem_of_cons in Hx as [->|Hx], Hy as [->|Hy]; auto.
    + apply list_elem_of_In, Ha in Hy. by rewrite Hc in Hy.
    + apply list_elem_of_In, Ha in Hx. by rewrite Ho, Hc in Hx.
Qed.

Lemma ranked_arrangement_unique (s : scope) (user : User.IUser) (db : Db)
    (l : list (Track.doc bool document)) :
  distinct_ranks (ranking s) (eligible s user db) = true →
  ranked_arrangement s user db l →
  l = full_sequence s user db.
Proof.
  intros Hd [Hperm Hsorted]. unfold full_sequence.
  apply (StronglySorted_unique_strong (Agg.sort_le (ranking s)));
    [|exact Hsorted | apply sort_stage_sorted
     | by rewrite sort_stage_perm].
  intros x1 x2 Hx1 Hx2 H12 H21.
  rewrite Hperm in Hx1. rewrite sort_stage_elem_of in Hx2.
  apply (distinct_ranks_eq _ _ _ _ Hd Hx1 Hx2).
  unfold Agg.sort_le in *.
  rewrite (ord_opp _ (order_like_sort_compare (ranking s)) x1 x2) in H21.
  destruct (Agg.sort_compare (ranking s) x1 x2); simpl in *; congruence.
Qed.

Lemma flat_map_agree {A B} (f g : A → list B) (l : list A) :
  (∀ x, In x l → f x = g x) → List.flat_map f l = List.flat_map g l.
Proof.
  induction l as [|x l IH]; intros H; simpl; [reflexivity|].
  rewrite (H x) by (left; reflexivity).
  by rewrite IH by (intros y Hy; apply H; right; exact Hy).
Qed.

Lemma first_pages_tile (s : scope) (limit : Z) (user : User.IUser)
    (db : Db) (n : nat) :
  1 ≤ limit →
  first_pages s limit user db n
  = take (n * Z.to_nat limit) (full_sequence s user db).
Proof.
  intros Hl. unfold first_pages. induction n as [|n IH]; [reflexivity|].
  rewrite seq_S, flat_map_app, IH. cbn [List.flat_map]. rewrite app_nil_r.
  rewrite listing_page by lia.
  replace (1 + n - 1)%nat with n by lia.
  rewrite take_take_drop. f_equal. lia.
Qed.

(** X1. When no two records of a scope tie in all the keys of its ranking,
    the pages do not depend on the order the store gives to ties, which
    it may choose anew on every request: with a limit of at least 1, the
    pages 1 to [n], each cut from the arrangement of its own run of the
    pipeline, read one after the other, are the first [n * limit] records
    of the one ranked sequence, so between consecutive pages no record is
    skipped and none is repeated.  They are the pages the handlers
    answer. *)
Theorem pages_tile_the_sequence (s : scope) (limit : Z) (user : User.IUser)
    (db : Db) (n : nat) (runs : nat → list (Track.doc bool document)) :
  1 ≤ limit →
  distinct_ranks (ranking s) (eligible s user db) = true →
  (∀ p, ranked_arrangement s user db (runs p)) →
  pages_of_runs limit runs n
    = take (n * Z.to_nat limit) (full_sequence s user db)
  ∧ pages_of_runs limit runs n = first_pages s limit user db n.
Proof.
  intros Hl Hd Hruns.
  assert (H : pages_of_runs limit runs n = first_pages s limit user db n).
  { unfold pages_of_runs, first_pages.
    apply flat_map_agree. intros p Hp. apply in_seq in Hp.
    rewrite listing_page by lia.
    by rewrite (ranked_arrangement_unique s user db (runs p) Hd (Hruns p)). }
  split; [|exact H]. rewrite H. by apply first_pages_tile.
Qed.

Lemma sample_ranked_arrangement (p : nat) :
  ranked_arrangement Global Sample.me Sample.db
    (full_sequence Global Sample.me Sample.db).
Proof. split; [apply sort_stage_perm | apply sort_stage_sorted]. Qed.

Lemma pages_tile_the_sequence_witness :
  (1 ≤ 2
   ∧ distinct_ranks (ranking Global) (eligible Global Sample.me Sample.db)
     = true
   ∧ ∀ p : nat,
       ranked_arrangement Global Sample.me Sample.db
         (full_sequence Global Sample.me Sample.db))
  ∧ pages_of_runs 2 (fun _ => full_sequence Global Sample.me Sample.db) 3
      = take (3 * Z.to_nat 2) (full_sequence Global Sample.me Sample.db)
  ∧ pages_of_runs 2 (fun _ => full_sequence Global Sample.me Sample.db) 3
    = first_pages Global 2 Sample.me Sample.db 3.
Proof.
  assert (H1 : 1 ≤ 2) by lia.
  assert (H2 : distinct_ranks (ranking Global)
                 (eligible Global Sample.me Sample.db) = true)
    by (vm_compute; reflexivity).
  exact (conj (conj H1 (conj H2 sample_ranked_arrangement))
           (pages_tile_the_sequence Global 2 Sample.me Sample.db 3
              (fun _ => full_sequence Global Sample.me Sample.db)
              H1 H2 sample_ranked_arrangement)).
Defined.

(** X2. For a page of at least 1 and a limit of at least 1 the listing
    answers, and with exactly as many records as are left after the skip,
    up to the limit; a page that starts at or past the end of the sequence
    is empty. *)
Theorem page_length (s : scope) (q : query) (user : User.IUser) (db : Db) :
  1 ≤ default 1 (page q) → 1 ≤ default 10 (limit q) →
  ∃ rows,
    listing s q user db = Json rows
    ∧ length rows
      = Nat.min (Z.to_nat (default 10 (limit q)))
          (Nat.sub (length (full_sequence s user db))
             (Z.to_nat ((default 1 (page q) - 1) * default 10 (limit q))))
    ∧ (Nat.le (length (full_sequence s user db))
         (Z.to_nat ((default 1 (page q) - 1) * default 10 (limit q))) →
       rows = []).
Proof.
  intros Hp Hl. eexists. split.
  - rewrite listing_normal_form. by apply paginate_ok.
  - unfold slice. split.
    + rewrite length_take, length_drop. reflexivity.
    + intros Hend. rewrite drop_ge by exact Hend. apply take_nil.
Qed.

Lemma page_length_witness :
  (1 ≤ default 1 (page (page_query 4 2))
   ∧ 1 ≤ default 10 (limit (page_query 4 2)))
  ∧ ∃ rows,
      listing Global (page_query 4 2) Sample.me Sample.db = Json rows
      ∧ length rows
        = Nat.min (Z.to_nat (default 10 (limit (page_query 4 2))))
            (Nat.sub (length (full_sequence Global Sample.me Sample.db))
               (Z.to_nat ((default 1 (page (page_query 4 2)) - 1)
                          * default 10 (limit (page_query 4 2)))))
      ∧ (Nat.le (length (full_sequence Global Sample.me Sample.db))
           (Z.to_nat ((default 1 (page (page_query 4 2)) - 1)
                      * default 10 (limit (page_query 4 2)))) →
         rows = []).
Proof.
  assert (H1 : 1 ≤ default 1 (page (page_query 4 2))) by (simpl; lia).
  assert (H2 : 1 ≤ default 10 (limit (page_query 4 2))) by (simpl; lia).
  exact (conj (conj H1 H2)
           (page_length Global (page_query 4 2) Sample.me Sample.db H1 H2)).
Defined.

(** X3. A page below 1 or a limit below 1, given or by default, makes the
    store reject the pipeline of every scope: the listing answers no
    data. *)
Theorem listing_out_of_range (s : scope) (q : query) (user : User.IUser)
    (db : Db) :
  default 1 (page q) < 1 ∨ default 10 (limit q) < 1 →
  (∃ f, listing s q user db = Fault f)
  ∧ data_of (listing s q user db) = [].
Proof.
  intros Hout. rewrite listing_normal_form.
  unfold paginate, Agg.skip_stage, Agg.limit_stage. simpl.
  destruct (Z.ltb_spec ((default 1 (page q) - 1) * default 10 (limit q)) 0);
    simpl; [eauto|].
  destruct (Z.leb_spec (default 10 (limit q)) 0); [eauto|]. nia.
Qed.

Lemma listing_out_of_range_witness :
  (default 1 (page (page_query 0 5)) < 1
   ∨ default 10 (limit (page_query 0 5)) < 1)
  ∧ (∃ f, listing LikedOnly (page_query 0 5) Sample.me Sample.db = Fault f)
  ∧ data_of (listing LikedOnly (page_query 0 5) Sample.me Sample.db) = [].
Proof.
  assert (H : default 1 (page (page_query 0 5)) < 1
              ∨ default 10 (limit (page_query 0 5)) < 1)
    by (left; simpl; lia).
  exact (conj H
           (listing_out_of_range LikedOnly (page_query 0 5) Sample.me
              Sample.db H)).
Defined.

(** ** Lists *)

Lemma filter_all {A} (q : A → bool) (b : bool) (l : list A) :
  (∀ r, In r l → q r = b) →
  List.filter q l = if b then l else [].
Proof.
  induction l as [|x l IH]; intros H; simpl.
  - by destruct b.
  - rewrite (H x) by (left; reflexivity).
    rewrite IH by (intros r Hr; apply H; right; exact Hr).
    by destruct b.
Qed.

Section ListFacts.
Context {A B : Type}.

Lemma map_fmap (f : A → B) (l : list A) : List.map f l = f <$> l.
Proof. induction l as [|x l IH]; simpl; [reflexivity|]. by rewrite IH. Qed.

Lemma filter_true (l : list A) : List.filter (fun _ => true) l = l.
Proof. induction l as [|x l IH]; simpl; [reflexivity|]. by rewrite IH. Qed.

Lemma filter_flat_map (g : A → list B) (p : A → bool) (q : B → bool)
    (l : list A) :
  (∀ t r, In t l → In r (g t) → q r = p t) →
  List.filter q (List.flat_map g l) = List.flat_map g (List.filter p l).
Proof.
  induction l as [|t l IH]; intros H; simpl; [reflexivity|].
  rewrite List.filter_app, IH
    by (intros t' r Ht' Hr; apply H; [right|]; assumption).
  rewrite (filter_all q (p t) (g t))
    by (intros r Hr; apply H; [left; reflexivity | exact Hr]).
  by destruct (p t).
Qed.

Lemma filter_Permutation (q : A → bool) (l k : list A) :
  l ≡ₚ k → List.filter q l ≡ₚ List.filter q k.
Proof.
  induction 1 as [|x l k _ IH|x y l|l k m _ IH1 _ IH2]; simpl.
  - reflexivity.
  - destruct (q x); [by constructor | exact IH].
  - destruct (q x), (q y); try reflexivity. apply perm_swap.
  - etransitivity; eassumption.
Qed.

Lemma filter_sublist (q : A → bool) (l : list A) :
  List.filter q l `sublist_of` l.
Proof.
  induction l as [|x l IH]; simpl; [constructor|].
  destruct (q x); by constructor.
Qed.

Lemma filter_sorted (R : relation A) (q : A → bool) (l : list A) :
  StronglySorted R l → StronglySorted R (List.filter q l).
Proof.
  induction 1 as [|x l Hs IH Hx]; simpl; [constructor|].
  destruct (q x); [|exact IH]. constructor; [exact IH|].
  rewrite Forall_forall in *. intros y Hy. apply Hx.
  rewrite list_elem_of_In in *. apply filter_In in Hy. tauto.
Qed.

Lemma flat_map_fmap_ext {C : Type} (k : B → C) (g g' : A → list B)
    (l : list A) :
  (∀ t, In t l → k <$> g t = k <$> g' t) →
  k <$> List.flat_map g l = k <$> List.flat_map g' l.
Proof.
  induction l as [|t l IH]; intros H; simpl; [reflexivity|].
  rewrite !fmap_app, IH by (intros t' Ht'; apply H; right; exact Ht').
  by rewrite (H t) by (left; reflexivity).
Qed.

Lemma flat_map_keys_sublist {C : Type} (k : B → C) (k' : A → C)
    (g : A → list B) (l : list A) :
  (∀ t, length (g t) ≤ 1)%nat →
  (∀ t r, In r (g t) → k r = k' t) →
  (k <$> List.flat_map g l) `sublist_of` (k' <$> l).
Proof.
  intros Hlen Hk. induction l as [|t l IH]; simpl; [constructor|].
  rewrite fmap_app. specialize (Hlen t).
  destruct (g t) as [|r [|r' rest]] eqn:Hg; simpl in *; [| |lia].
  - by constructor.
  - rewrite (Hk t r) by (rewrite Hg; left; reflexivity). by constructor.
Qed.

Lemma NoDup_fmap_eq (k : A → B) (l : list A) (x y : A) :
  NoDup (k <$> l) → x ∈ l → y ∈ l → k x = k y → x = y.
Proof.
  induction l as [|z l IH]; simpl; intros Hnd Hx Hy Hk.
  - by apply elem_of_nil in Hx.
  - apply NoDup_cons in Hnd as [Hz Hnd].
    apply elem_of_cons in Hx as [->|Hx], Hy as [->|Hy]; auto.
    + exfalso. apply Hz. rewrite Hk. by apply list_elem_of_fmap_2.
    + exfalso. apply Hz. rewrite <- Hk. by apply list_elem_of_fmap_2.
Qed.

End ListFacts.

(** ** What a listing holds *)

Lemma row_id (s : scope) (user : User.IUser) (t : ITrack) (u : document) :
  Track._id (row s user t u) = Track._id t.
Proof. by destruct s. Qed.

Lemma owners_at_most_one (t : ITrack) (users : list document) :
  NoDup (omap (fun u : document => u !! "_id") users) →
  (length (List.filter (owns t) users) ≤ 1)%nat.
Proof.
  induction users as [|u users IH]; simpl; [lia|].
  destruct (owns t u) eqn:Hu.
  - apply owns_spec in Hu. rewrite Hu. intros Hnd.
    apply NoDup_cons in Hnd as [Hnot _].
    rewrite (filter_all (owns t) false users); [simpl; lia|].
    intros v Hv. destruct (owns t v) eqn:Hv'; [|reflexivity].
    exfalso. apply Hnot. apply owns_spec in Hv'.
    apply list_elem_of_omap. exists v. by rewrite list_elem_of_In.
  - intros Hnd. apply IH. destruct (u !! "_id"); [|exact Hnd].
    by apply NoDup_cons in Hnd as [_ Hnd].
Qed.

Lemma eligible_ids_sublist (s : scope) (user : User.IUser) (db : Db) :
  unique_user_ids db →
  (Track._id <$> eligible s user db) `sublist_of` (Track._id <$> db_tracks db).
Proof.
  intros Hu. unfold eligible.
  etransitivity;
    [apply (flat_map_keys_sublist Track._id Track._id)
    | apply fmap_sublist, filter_sublist].
  - intros t. rewrite length_map. by apply owners_at_most_one.
  - intros t r Hr. apply in_map_iff in Hr as (u & <- & _). apply row_id.
Qed.

(** X4. With distinct track and user identities in the store, no page of
    any listing holds two records of the same track: the join with the
    users yields at most one record a track. *)
Theorem page_has_no_repeated_track (s : scope) (q : query)
    (user : User.IUser) (db : Db) (rows : list (Track.doc bool document)) :
  unique_track_ids db → unique_user_ids db →
  listing s q user db = Json rows →
  NoDup (Track._id <$> rows).
Proof.
  intros Ht Hu Hl. rewrite listing_normal_form in Hl.
  apply paginate_inv in Hl. subst rows. unfold slice.
  eapply sublist_NoDup;
    [|apply fmap_sublist; etransitivity;
      [apply sublist_take | apply sublist_drop]].
  unfold full_sequence. rewrite sort_stage_perm.
  eapply sublist_NoDup; [exact Ht | by apply eligible_ids_sublist].
Qed.

(** X5. A track whose author is no stored user is left out of every
    listing: with distinct track identities, no returned record carries
    its identity. *)
Theorem orphan_track_is_not_listed (s : scope) (q : query)
    (user : User.IUser) (db : Db) (rows : list (Track.doc bool document))
    (t : ITrack) (r : Track.doc bool document) :
  unique_track_ids db →
  t ∈ db_tracks db →
  (∀ u : document, u ∈ db_users db → u !! "_id" ≠ Some (VId (Track.author t))) →
  listing s q user db = Json rows → r ∈ rows →
  Track._id r ≠ Track._id t.
Proof.
  intros Hids Ht Horphan Hl Hr Heq.
  destruct (listing_rows s q user db rows r Hl Hr)
    as (t' & u & Ht' & Hu & _ & Ho & ->).
  rewrite row_id in Heq.
  assert (t' = t) as -> by (eapply NoDup_fmap_eq; eauto).
  apply owns_spec in Ho. by apply (Horphan u).
Qed.

Lemma row_in_scope_spec (s : scope) (user : User.IUser) (t : ITrack)
    (u : document) :
  owns t u = true →
  row_in_scope s (row Global user t u) = scope_filter s user t.
Proof.
  intros Ho. apply owns_spec in Ho. destruct s as [|id| |id]; simpl.
  - reflexivity.
  - destruct (N.eqb_spec (Track.playlist t) id) as [H|H].
    + by rewrite bool_decide_eq_true_2.
    + by rewrite bool_decide_eq_false_2.
  - reflexivity.
  - change (foldr delete u hidden_author_fields) with (summary u).
    rewrite summary_other, Ho.
    + simpl. destruct (N.eqb_spec (Track.author t) id) as [H|H].
      * by rewrite bool_decide_eq_true_2.
      * by rewrite bool_decide_eq_false_2.
    + unfold hidden_author_fields. rewrite list_elem_of_In. simpl.
      intuition discriminate.
Qed.

Lemma eligible_restricts_global (s : scope) (user : User.IUser) (db : Db) :
  List.flat_map
    (fun t => List.map (row Global user t) (List.filter (owns t) (db_users db)))
    (List.filter (scope_filter s user) (db_tracks db))
  = List.filter (row_in_scope s) (eligible Global user db).
Proof.
  unfold eligible. simpl. rewrite filter_true. symmetry.
  apply filter_flat_map. intros t r _ Hr.
  apply in_map_iff in Hr as (u & <- & Hu). apply filter_In in Hu as [_ Ho].
  by apply row_in_scope_spec.
Qed.

(** X6. The playlist-scoped and the author-scoped listing rank exactly
    the records of the global listing that belong to the playlist, or to
    the author: the full sequence of the scope is a rearrangement of the
    global one restricted to the scope, and that restriction is itself in
    ranking order, so the two differ at most in the order of ties. *)
Theorem scoped_listing_restricts_global (s : scope) (user : User.IUser)
    (db : Db) :
  s ≠ LikedOnly →
  full_sequence s user db
    ≡ₚ List.filter (row_in_scope s) (full_sequence Global user db)
  ∧ StronglySorted (Agg.sort_le (ranking s))
      (List.filter (row_in_scope s) (full_sequence Global user db)).
Proof.
  intros Hs. split.
  - unfold full_sequence at 1. rewrite sort_stage_perm.
    transitivity (List.filter (row_in_scope s) (eligible Global user db)).
    + rewrite <- eligible_restricts_global. unfold eligible.
      by destruct s.
    + apply filter_Permutation. unfold full_sequence.
      by rewrite sort_stage_perm.
  - apply filter_sorted.
    replace (ranking s) with (ranking Global) by (by destruct s).
    apply sort_stage_sorted.
Qed.

Lemma scoped_listing_restricts_global_witness :
  InPlaylist 1%N ≠ LikedOnly
  ∧ full_sequence (InPlaylist 1%N) Sample.me Sample.db
      ≡ₚ List.filter (row_in_scope (InPlaylist 1%N))
           (full_sequence Global Sample.me Sample.db).
Proof.
  assert (H : InPlaylist 1%N ≠ LikedOnly) by discriminate.
  exact (conj H
           (proj1 (scoped_listing_restricts_global (InPlaylist 1%N)
                     Sample.me Sample.db H))).
Defined.

(** X7. The liked-only listing holds the tracks of exactly those records
    of the global listing whose liked flag is set: the identities of its
    full sequence are a rearrangement of theirs. *)
Theorem liked_listing_matches_flags (user : User.IUser) (db : Db) :
  Track._id <$> full_sequence LikedOnly user db
  ≡ₚ Track._id
       <$> List.filter (fun r => Track.liked r) (full_sequence Global user db).
Proof.
  unfold full_sequence at 1. rewrite sort_stage_perm.
  transitivity
    (Track._id <$> List.filter (row_in_scope LikedOnly)
                     (eligible Global user db)).
  - rewrite <- eligible_restricts_global. unfold eligible.
    erewrite flat_map_fmap_ext; [reflexivity|].
    intros t _. rewrite !map_fmap, <- !list_fmap_compose.
    apply list_fmap_ext. intros i u _. reflexivity.
  - apply fmap_Permutation, filter_Permutation. unfold full_sequence.
    by rewrite sort_stage_perm.
Qed.

(** X8. Which records a ranked listing holds does not depend on who asks:
    for two requesters the full sequences of a scope other than
    liked-only agree, up to order, in everything but the liked flag. *)
Theorem ranked_listing_same_for_all (s : scope) (u1 u2 : User.IUser)
    (db : Db) :
  s ≠ LikedOnly →
  without_liked <$> full_sequence s u1 db
  ≡ₚ without_liked <$> full_sequence s u2 db.
Proof.
  intros Hs. unfold full_sequence. rewrite !sort_stage_perm.
  unfold eligible.
  replace (List.filter (scope_filter s u2) (db_tracks db))
    with (List.filter (scope_filter s u1) (db_tracks db))
    by (by destruct s).
  erewrite flat_map_fmap_ext; [reflexivity|].
  intros t _. rewrite !map_fmap, <- !list_fmap_compose.
  apply list_fmap_ext. intros i u _. by destruct s.
Qed.

Lemma ranked_listing_same_for_all_witness :
  Global ≠ LikedOnly
  ∧ without_liked <$> full_sequence Global Sample.me Sample.db
    ≡ₚ without_liked <$> full_sequence Global Sample.boss Sample.db.
Proof.
  assert (H : Global ≠ LikedOnly) by discriminate.
  exact (conj H
           (ranked_listing_same_for_all Global Sample.me Sample.boss
              Sample.db H)).
Defined.

Lemma sample_unique_tracks : unique_track_ids db_with_orphan.
Proof.
  unfold unique_track_ids. apply (bool_decide_unpack _). vm_compute. exact I.
Qed.

Lemma sample_unique_users : unique_user_ids db_with_orphan.
Proof.
  unfold unique_user_ids.
  assert (H : user_ids db_with_orphan = [VId 100%N; VId 101%N])
    by (vm_compute; reflexivity).
  rewrite H. repeat constructor; rewrite ?list_elem_of_In; simpl;
    intuition discriminate.
Qed.

Lemma page_has_no_repeated_track_witness :
  (unique_track_ids db_with_orphan ∧ unique_user_ids db_with_orphan
   ∧ listing Global Sample.no_query Sample.me db_with_orphan
     = Json (data_of (listing Global Sample.no_query Sample.me db_with_orphan)))
  ∧ NoDup (Track._id
             <$> data_of (listing Global Sample.no_query Sample.me
                            db_with_orphan)).
Proof.
  assert (H : listing Global Sample.no_query Sample.me db_with_orphan
    = Json (data_of (listing Global Sample.no_query Sample.me db_with_orphan)))
    by (vm_compute; reflexivity).
  exact (conj (conj sample_unique_tracks (conj sample_unique_users H))
           (page_has_no_repeated_track Global Sample.no_query Sample.me
              db_with_orphan _ sample_unique_tracks sample_unique_users H)).
Defined.

Lemma orphan_track_is_not_listed_witness :
  (unique_track_ids db_with_orphan
   ∧ orphan ∈ db_tracks db_with_orphan
   ∧ (∀ u : document, u ∈ db_users db_with_orphan →
        u !! "_id" ≠ Some (VId (Track.author orphan)))
   ∧ listing Global Sample.no_query Sample.me db_with_orphan
     = Json (data_of (listing Global Sample.no_query Sample.me db_with_orphan))
   ∧ Sample.first_row
       ∈ data_of (listing Global Sample.no_query Sample.me db_with_orphan))
  ∧ Track._id Sample.first_row ≠ Track._id orphan.
Proof.
  assert (H1 : orphan ∈ db_tracks db_with_orphan).
  { apply (list_elem_of_lookup_2 _ 5%nat). reflexivity. }
  assert (H2 : ∀ u : document, u ∈ db_users db_with_orphan →
                 u !! "_id" ≠ Some (VId (Track.author orphan))).
  { intros u Hu. simpl in Hu.
    apply elem_of_cons in Hu as [->|Hu];
      [vm_compute; discriminate|].
    apply elem_of_cons in Hu as [->|Hu];
      [vm_compute; discriminate|].
    by apply elem_of_nil in Hu. }
  assert (H3 : listing Global Sample.no_query Sample.me db_with_orphan
    = Json (data_of (listing Global Sample.no_query Sample.me db_with_orphan)))
    by (vm_compute; reflexivity).
  assert (H4 : Sample.first_row
    ∈ data_of (listing Global Sample.no_query Sample.me db_with_orphan)).
  { apply (list_elem_of_lookup_2 _ 0%nat). vm_compute. reflexivity. }
  exact (conj (conj sample_unique_tracks (conj H1 (conj H2 (conj H3 H4))))
           (orphan_track_is_not_listed Global Sample.no_query Sample.me
              db_with_orphan _ orphan Sample.first_row
              sample_unique_tracks H1 H2 H3 H4)).
Defined.

(** ** More on collections *)

Section MoreCollectionFacts.
Context {D : Type} (id_of : D → ObjectId).

Lemma findById_None (id : ObjectId) (c : list D) :
  findById id_of id c = None ↔ id ∉ id_of <$> c.
Proof.
  unfold findById. induction c as [|d c IH]; simpl.
  - split; [intros _; apply not_elem_of_nil | reflexivity].
  - rewrite not_elem_of_cons.
    destruct (N.eqb_spec (id_of d) id) as [Hd|Hd].
    + split; [discriminate | intros [Hne _]; congruence].
    + rewrite IH. split; [intros H; split; [congruence | exact H] | tauto].
Qed.

Lemma findById_app (id : ObjectId) (c1 c2 : list D) :
  findById id_of id (c1 ++ c2)
  = match findById id_of id c1 with
    | Some d => Some d
    | None => findById id_of id c2
    end.
Proof.
  unfold findById. induction c1 as [|d c1 IH]; simpl; [reflexivity|].
  by destruct (N.eqb (id_of d) id).
Qed.

Lemma removeOne_app_fresh (id : ObjectId) (c1 c2 : list D) (d : D) :
  id ∉ id_of <$> c1 → id_of d = id →
  removeOne id_of id (c1 ++ d :: c2) = c1 ++ c2.
Proof.
  intros Hfresh Hd. induction c1 as [|x c1 IH]; simpl.
  - by rewrite (proj2 (N.eqb_eq _ _) Hd).
  - rewrite fmap_cons, not_elem_of_cons in Hfresh. destruct Hfresh as [Hx Hc].
    destruct (N.eqb_spec (id_of x) id); [congruence|]. by rewrite IH.
Qed.

Lemma findById_removeOne_ne (id id' : ObjectId) (c : list D) :
  id' ≠ id →
  findById id_of id' (removeOne id_of id c) = findById id_of id' c.
Proof.
  intros Hne. unfold findById. induction c as [|x c IH]; simpl; [reflexivity|].
  destruct (N.eqb_spec (id_of x) id) as [Hx|Hx]; simpl.
  - destruct (N.eqb_spec (id_of x) id'); [congruence | reflexivity].
  - by rewrite IH.
Qed.

Lemma updateOne_fmap {E : Type} (g : D → E) (id : ObjectId) (f : D → D)
    (c : list D) :
  (∀ x, g (f x) = g x) →
  g <$> updateOne id_of id f c = g <$> c.
Proof.
  intros Hf. induction c as [|x c IH]; simpl; [reflexivity|].
  destruct (N.eqb (id_of x) id); rewrite !fmap_cons.
  - by rewrite Hf.
  - by rewrite IH.
Qed.

Lemma removeOne_ids_sublist (id : ObjectId) (c : list D) :
  (id_of <$> removeOne id_of id c) `sublist_of` (id_of <$> c).
Proof.
  induction c as [|x c IH]; simpl; [constructor|].
  destruct (N.eqb (id_of x) id); rewrite ?fmap_cons; by constructor.
Qed.

End MoreCollectionFacts.

(** ** More on the update operators *)

Lemma length_pull (x : ObjectId) (arr : list ObjectId) :
  NoDup arr → x ∈ arr → S (length (pull x arr)) = length arr.
Proof.
  unfold pull. induction arr as [|y arr IH]; intros Hnd Hx.
  - by apply elem_of_nil in Hx.
  - apply NoDup_cons in Hnd as [Hy Hnd]. simpl.
    destruct (N.eqb_spec y x) as [->|Hne]; simpl.
    + f_equal. rewrite (filter_all _ true arr); [reflexivity|].
      intros z Hz. apply negb_true_iff, N.eqb_neq. intros ->.
      apply Hy. by rewrite list_elem_of_In.
    + f_equal. apply IH; [exact Hnd|].
      apply elem_of_cons in Hx as [->|Hx]; [congruence | exact Hx].
Qed.

Lemma pull_absent (x : ObjectId) (arr : list ObjectId) :
  x ∉ arr → pull x arr = arr.
Proof.
  intros Hx. unfold pull. rewrite (filter_all _ true arr); [reflexivity|].
  intros z Hz. apply negb_true_iff, N.eqb_neq. intros ->.
  apply Hx. by rewrite list_elem_of_In.
Qed.

Lemma toggle_twice_absent (x : ObjectId) (arr : list ObjectId) :
  x ∉ arr → toggle x (toggle x arr) = arr.
Proof.
  intros Hx. unfold toggle at 2. rewrite bool_decide_eq_false_2 by exact Hx.
  unfold addToSet. rewrite bool_decide_eq_false_2 by exact Hx.
  unfold toggle. rewrite bool_decide_eq_true_2
    by (apply elem_of_app; right; apply list_elem_of_singleton; reflexivity).
  unfold pull. rewrite List.filter_app. fold (pull x arr).
  rewrite pull_absent by exact Hx. simpl. rewrite N.eqb_refl. simpl.
  apply app_nil_r.
Qed.

Lemma length_toggle (x : ObjectId) (arr : list ObjectId) :
  NoDup arr →
  length (toggle x arr)
  = if bool_decide (x ∈ arr) then Nat.pred (length arr) else S (length arr).
Proof.
  intros Hnd. unfold toggle. case_bool_decide as Hx.
  - rewrite <- (length_pull x arr Hnd Hx). reflexivity.
  - unfold addToSet. rewrite bool_decide_eq_false_2 by exact Hx.
    rewrite length_app. simpl. lia.
Qed.

(** ** The toggle, further *)

Lemma putTrackLike_found (id : ObjectId) (user : User.IUser) (db : Db)
    (t : ITrack) :
  findById Track._id id (db_tracks db) = Some t →
  putTrackLike id user db
  = (Json (negb (bool_decide (User.id user ∈ Track.liked t))),
     {| db_tracks :=
          updateOne Track._id id
            (fun t' =>
               Track.set_liked (toggle (User.id user) (Track.liked t')) t')
            (db_tracks db);
        db_playlists := db_playlists db;
        db_users := db_users db |})
  ∧ findById Track._id id (db_tracks (snd (putTrackLike id user db)))
    = Some (Track.set_liked (toggle (User.id user) (Track.liked t)) t).
Proof.
  intros Ht. pose proof (findById_id _ _ _ _ Ht) as [Hid _].
  assert (H : putTrackLike id user db
    = (Json (negb (bool_decide (User.id user ∈ Track.liked t))),
       {| db_tracks :=
            updateOne Track._id id
              (fun t' =>
                 Track.set_liked (toggle (User.id user) (Track.liked t')) t')
              (db_tracks db);
          db_playlists := db_playlists db;
          db_users := db_users db |}))
    by (rewrite putTrackLike_eq, Ht, Hid; reflexivity).
  split; [exact H|]. rewrite H. simpl.
  by apply (findById_updateOne Track._id id
              (fun t' =>
                 Track.set_liked (toggle (User.id user) (Track.liked t')) t')).
Qed.

(** X9. A toggle writes the likers of the one track and nothing else:
    every track keeps its place and all its other fields, every other
    track is found as before, and playlists and users are untouched. *)
Theorem putTrackLike_writes_likers_only (id : ObjectId) (user : User.IUser)
    (db : Db) :
  without_liked <$> db_tracks (snd (putTrackLike id user db))
    = without_liked <$> db_tracks db
  ∧ db_playlists (snd (putTrackLike id user db)) = db_playlists db
  ∧ db_users (snd (putTrackLike id user db)) = db_users db
  ∧ ∀ id', id' ≠ id →
      findById Track._id id' (db_tracks (snd (putTrackLike id user db)))
      = findById Track._id id' (db_tracks db).
Proof.
  rewrite putTrackLike_eq.
  destruct (findById Track._id id (db_tracks db)) as [t|] eqn:Ht; simpl;
    [|auto].
  pose proof (findById_id _ _ _ _ Ht) as [Hid _]. rewrite Hid.
  split; [by apply updateOne_fmap|]. repeat split.
  intros id' Hne. by apply findById_updateOne_ne.
Qed.

(** X10. While the likers of a track hold no user twice, a toggle moves
    its like count by exactly one: up when the handler answers [true],
    down when it answers [false]. *)
Theorem like_count_moves_by_one (id : ObjectId) (user : User.IUser) (db : Db)
    (t : ITrack) :
  findById Track._id id (db_tracks db) = Some t →
  NoDup (Track.liked t) →
  ∃ t',
    findById Track._id id (db_tracks (snd (putTrackLike id user db))) = Some t'
    ∧ ((fst (putTrackLike id user db) = Json true
        ∧ length (Track.liked t') = S (length (Track.liked t)))
       ∨ (fst (putTrackLike id user db) = Json false
          ∧ S (length (Track.liked t')) = length (Track.liked t))).
Proof.
  intros Ht Hnd. destruct (putTrackLike_found id user db t Ht) as [H1 H2].
  eexists. split; [exact H2|]. rewrite H1. simpl.
  rewrite (length_toggle _ _ Hnd).
  case_bool_decide as Hx; simpl; [right | left; auto].
  split; [reflexivity|].
  destruct (Track.liked t); [by apply elem_of_nil in Hx | reflexivity].
Qed.

Lemma like_count_moves_by_one_witness :
  (findById Track._id 2%N (db_tracks Sample.db)
     = Some (Sample.track 2 100 [1; 2; 3; 4; 9]%N 11)
   ∧ NoDup (Track.liked (Sample.track 2 100 [1; 2; 3; 4; 9]%N 11)))
  ∧ ∃ t',
      findById Track._id 2%N
        (db_tracks (snd (putTrackLike 2%N Sample.me Sample.db))) = Some t'
      ∧ ((fst (putTrackLike 2%N Sample.me Sample.db) = Json true
          ∧ length (Track.liked t')
            = S (length (Track.liked
                           (Sample.track 2 100 [1; 2; 3; 4; 9]%N 11))))
         ∨ (fst (putTrackLike 2%N Sample.me Sample.db) = Json false
            ∧ S (length (Track.liked t'))
              = length (Track.liked
                          (Sample.track 2 100 [1; 2; 3; 4; 9]%N 11)))).
Proof.
  assert (H1 : findById Track._id 2%N (db_tracks Sample.db)
               = Some (Sample.track 2 100 [1; 2; 3; 4; 9]%N 11))
    by reflexivity.
  assert (H2 : NoDup (Track.liked (Sample.track 2 100 [1; 2; 3; 4; 9]%N 11))).
  { apply (bool_decide_unpack _). vm_compute. exact I. }
  exact (conj (conj H1 H2)
           (like_count_moves_by_one 2%N Sample.me Sample.db _ H1 H2)).
Defined.

(** X11. Two toggles in a row by the same user answer opposite states and
    leave the track with all its other fields.  When the user was no liker
    before, the liker array is back exactly as it was; when the array held
    no user twice, it is a rearrangement of the original, so the like
    count is restored. *)
Theorem two_toggles_restore_likers (id : ObjectId) (user : User.IUser)
    (db : Db) (t : ITrack) :
  findById Track._id id (db_tracks db) = Some t →
  ∃ t'',
    findById Track._id id
      (db_tracks (snd (putTrackLike id user (snd (putTrackLike id user db)))))
    = Some t''
    ∧ without_liked t'' = without_liked t
    ∧ (User.id user ∉ Track.liked t → Track.liked t'' = Track.liked t)
    ∧ (NoDup (Track.liked t) → Track.liked t'' ≡ₚ Track.liked t)
    ∧ ∃ b, fst (putTrackLike id user db) = Json b
           ∧ fst (putTrackLike id user (snd (putTrackLike id user db)))
             = Json (negb b).
Proof.
  intros Ht. destruct (putTrackLike_found id user db t Ht) as [H1 H2].
  destruct (putTrackLike_found id user _ _ H2) as [H3 H4].
  eexists. split; [exact H4|]. simpl. split; [reflexivity|].
  split; [apply toggle_twice_absent|]. split.
  - intros Hnd. apply NoDup_Permutation; auto using NoDup_toggle.
    intros v. apply toggle_toggle.
  - eexists. rewrite H3, H1. simpl. split; [reflexivity|].
    f_equal. rewrite negb_involutive.
    destruct (decide (User.id user ∈ Track.liked t)) as [Hx|Hx].
    + rewrite (bool_decide_eq_true_2 _ Hx).
      apply negb_true_iff, bool_decide_eq_false_2.
      rewrite elem_of_toggle. intuition congruence.
    + rewrite (bool_decide_eq_false_2 _ Hx).
      apply negb_false_iff, bool_decide_eq_true_2.
      rewrite elem_of_toggle. left. auto.
Qed.

Lemma two_toggles_restore_likers_witness :
  findById Track._id 1%N (db_tracks Sample.db)
    = Some (Sample.track 1 100 [1; 2; 3; 4; 5]%N 10)
  ∧ ∃ t'',
      findById Track._id 1%N
        (db_tracks
           (snd (putTrackLike 1%N Sample.me
                   (snd (putTrackLike 1%N Sample.me Sample.db)))))
      = Some t''
      ∧ without_liked t''
        = without_liked (Sample.track 1 100 [1; 2; 3; 4; 5]%N 10)
      ∧ (User.id Sample.me ∉ [1; 2; 3; 4; 5]%N
         → Track.liked t'' = [1; 2; 3; 4; 5]%N)
      ∧ (NoDup [1; 2; 3; 4; 5]%N → Track.liked t'' ≡ₚ [1; 2; 3; 4; 5]%N)
      ∧ ∃ b, fst (putTrackLike 1%N Sample.me Sample.db) = Json b
             ∧ fst (putTrackLike 1%N Sample.me
                      (snd (putTrackLike 1%N Sample.me Sample.db)))
               = Json (negb b).
Proof.
  assert (H : findById Track._id 1%N (db_tracks Sample.db)
              = Some (Sample.track 1 100 [1; 2; 3; 4; 5]%N 10))
    by reflexivity.
  exact (conj H (two_toggles_restore_likers 1%N Sample.me Sample.db _ H)).
Defined.

(** ** Mutations and the listings after them *)

Lemma full_sequence_rows (s : scope) (user : User.IUser) (db : Db)
    (r : Track.doc bool document) :
  r ∈ full_sequence s user db ↔
  ∃ t u, t ∈ db_tracks db ∧ u ∈ db_users db
         ∧ scope_filter s user t = true ∧ owns t u = true
         ∧ r = row s user t u.
Proof.
  unfold full_sequence. rewrite sort_stage_elem_of.
  unfold eligible. rewrite list_elem_of_In, in_flat_map. split.
  - intros (t & Ht & Hr). apply filter_In in Ht as [Ht Hf].
    apply in_map_iff in Hr as (u & <- & Hu). apply filter_In in Hu as [Hu Ho].
    exists t, u. rewrite !list_elem_of_In. auto.
  - intros (t & u & Ht & Hu & Hf & Ho & ->).
    rewrite list_elem_of_In in Ht. rewrite list_elem_of_In in Hu.
    exists t. split; [by apply filter_In|].
    apply in_map. by apply filter_In.
Qed.

Lemma stored_user_owner (t : ITrack) (db : Db) :
  stored_user (Track.author t) db →
  ∃ u : document, u ∈ db_users db ∧ owns t u = true.
Proof. intros (u & Hu & Hid). exists u. split; [exact Hu|]. by apply owns_spec. Qed.

Lemma postTrack_created (e : env) (id : ObjectId) (user : User.IUser)
    (s : string) (p : IPlaylist) (db : Db) :
  s ≠ ""%string →
  findById Playlist._id id (db_playlists db) = Some p →
  postTrack e id user (Some s) db
  = (Json (Track.Doc (newId e) s (Playlist.img p) (User.id user) id []
             None (now e)),
     {| db_tracks :=
          db_tracks db
          ++ [Track.Doc (newId e) s (Playlist.img p) (User.id user) id []
                None (now e)];
        db_playlists :=
          updateOne Playlist._id id
            (fun p' =>
               {| Playlist._id := Playlist._id p';
                  Playlist.img := Playlist.img p';
                  Playlist.tracks := push (newId e) (Playlist.tracks p') |})
            (db_playlists db);
        db_users := db_users db |}).
Proof.
  intros Hs Hp. rewrite (postTrack_valid _ _ _ _ _ Hs), Hp.
  pose proof (findById_id _ _ _ _ Hp) as [-> _]. reflexivity.
Qed.

(** X12. A track created under an identity that no stored track has is
    found again by that identity; every track that was found before is
    still found, and the identities of the collection stay distinct. *)
Theorem created_track_is_found (e : env) (id : ObjectId) (user : User.IUser)
    (s : string) (p : IPlaylist) (db : Db) :
  s ≠ ""%string →
  findById Playlist._id id (db_playlists db) = Some p →
  newId e ∉ Track._id <$> db_tracks db →
  ∃ track,
    fst (postTrack e id user (Some s) db) = Json track
    ∧ findById Track._id (newId e)
        (db_tracks (snd (postTrack e id user (Some s) db))) = Some track
    ∧ (∀ id' t, findById Track._id id' (db_tracks db) = Some t →
         findById Track._id id'
           (db_tracks (snd (postTrack e id user (Some s) db))) = Some t)
    ∧ (unique_track_ids db →
       unique_track_ids (snd (postTrack e id user (Some s) db))).
Proof.
  intros Hs Hp Hfresh. rewrite (postTrack_created _ _ _ _ _ _ Hs Hp).
  eexists. split; [reflexivity|]. simpl. split; [|split].
  - rewrite findById_app, (proj2 (findById_None Track._id _ _) Hfresh).
    unfold findById. simpl. by rewrite N.eqb_refl.
  - intros id' t Ht. by rewrite findById_app, Ht.
  - unfold unique_track_ids. simpl. intros Hu.
    rewrite fmap_app. apply NoDup_app. split; [exact Hu|]. split.
    + intros x Hx Hx'. apply list_elem_of_singleton in Hx'. simpl in Hx'.
      congruence.
    + apply NoDup_singleton.
Qed.

Lemma created_track_is_found_witness :
  ("tune"%string ≠ ""%string
   ∧ findById Playlist._id 1%N (db_playlists Sample.db) = Some Sample.playlist
   ∧ newId Sample.clock ∉ Track._id <$> db_tracks Sample.db)
  ∧ ∃ track,
      fst (postTrack Sample.clock 1%N Sample.me (Some "tune"%string) Sample.db)
        = Json track
      ∧ findById Track._id (newId Sample.clock)
          (db_tracks
             (snd (postTrack Sample.clock 1%N Sample.me (Some "tune"%string)
                     Sample.db))) = Some track
      ∧ (∀ id' t, findById Track._id id' (db_tracks Sample.db) = Some t →
           findById Track._id id'
             (db_tracks
                (snd (postTrack Sample.clock 1%N Sample.me
                        (Some "tune"%string) Sample.db))) = Some t)
      ∧ (unique_track_ids Sample.db →
         unique_track_ids
           (snd (postTrack Sample.clock 1%N Sample.me (Some "tune"%string)
                   Sample.db))).
Proof.
  assert (H1 : "tune"%string ≠ ""%string) by discriminate.
  assert (H2 : findById Playlist._id 1%N (db_playlists Sample.db)
               = Some Sample.playlist) by reflexivity.
  assert (H3 : newId Sample.clock ∉ Track._id <$> db_tracks Sample.db).
  { apply (bool_decide_unpack _). vm_compute. exact I. }
  exact (conj (conj H1 (conj H2 H3))
           (created_track_is_found Sample.clock 1%N Sample.me "tune"
              Sample.playlist Sample.db H1 H2 H3)).
Defined.

(** X13. When the requester is a stored user, the track they create shows
    up at once in the global listing, in the listing of its playlist and
    in the listing of its author, for every viewer: with the given name,
    the image of the playlist, a like count of 0 and the liked flag
    unset. *)
Theorem created_track_is_listed (e : env) (id : ObjectId) (user : User.IUser)
    (s : string) (p : IPlaylist) (db : Db) (sc : scope) (viewer : User.IUser) :
  s ≠ ""%string →
  findById Playlist._id id (db_playlists db) = Some p →
  stored_user (User.id user) db →
  sc = Global ∨ sc = InPlaylist id ∨ sc = ByAuthor (User.id user) →
  ∃ r,
    r ∈ full_sequence sc viewer (snd (postTrack e id user (Some s) db))
    ∧ Track._id r = newId e
    ∧ Track.name r = s
    ∧ Track.img r = Playlist.img p
    ∧ Track.likedLength r = Some 0%nat
    ∧ Track.liked r = false.
Proof.
  intros Hs Hp (u & Hu & Hid) Hsc.
  rewrite (postTrack_created _ _ _ _ _ _ Hs Hp). simpl.
  set (track := Track.Doc (newId e) s (Playlist.img p) (User.id user) id []
                  None (now e) : ITrack).
  exists (row sc viewer track u). split.
  - apply full_sequence_rows. exists track, u. simpl.
    split; [apply elem_of_app; right; apply list_elem_of_singleton;
            reflexivity|].
    split; [exact Hu|]. split.
    + destruct Hsc as [->|[->| ->]]; simpl; [reflexivity| |];
        by apply bool_decide_eq_true_2.
    + split; [|reflexivity]. by apply owns_spec.
  - destruct Hsc as [->|[->| ->]]; simpl; auto.
Qed.

Lemma created_track_is_listed_witness :
  ("tune"%string ≠ ""%string
   ∧ findById Playlist._id 1%N (db_playlists Sample.db) = Some Sample.playlist
   ∧ stored_user (User.id Sample.alice_req) Sample.db
   ∧ (InPlaylist 1%N = Global ∨ InPlaylist 1%N = InPlaylist 1%N
      ∨ InPlaylist 1%N = ByAuthor (User.id Sample.alice_req)))
  ∧ ∃ r,
      r ∈ full_sequence (InPlaylist 1%N) Sample.me
            (snd (postTrack Sample.clock 1%N Sample.alice_req
                    (Some "tune"%string) Sample.db))
      ∧ Track._id r = newId Sample.clock
      ∧ Track.name r = "tune"%string
      ∧ Track.img r = Playlist.img Sample.playlist
      ∧ Track.likedLength r = Some 0%nat
      ∧ Track.liked r = false.
Proof.
  assert (H1 : "tune"%string ≠ ""%string) by discriminate.
  assert (H2 : findById Playlist._id 1%N (db_playlists Sample.db)
               = Some Sample.playlist) by reflexivity.
  assert (H3 : stored_user (User.id Sample.alice_req) Sample.db).
  { exists (User.to_document Sample.alice). split.
    - apply (list_elem_of_lookup_2 _ 0%nat). reflexivity.
    - vm_compute. reflexivity. }
  assert (H4 : InPlaylist 1%N = Global ∨ InPlaylist 1%N = InPlaylist 1%N
               ∨ InPlaylist 1%N = ByAuthor (User.id Sample.alice_req))
    by (right; left; reflexivity).
  exact (conj (conj H1 (conj H2 (conj H3 H4)))
           (created_track_is_listed Sample.clock 1%N Sample.alice_req "tune"
              Sample.playlist Sample.db (InPlaylist 1%N) Sample.me
              H1 H2 H3 H4)).
Defined.

(** X14. Creating a track under a new identity and deleting it again, by
    the same requester when that requester is an administrator or carries
    its [_id] as a string, brings the track collection back exactly; the
    playlist is not cleaned up and keeps the identity of the deleted
    track at the end of its sequence.  A creator who is a hydrated
    document and no administrator is refused instead, and the track
    stays. *)
Theorem create_then_delete (e : env) (id : ObjectId) (user : User.IUser)
    (s : string) (p : IPlaylist) (db : Db) :
  s ≠ ""%string →
  findById Playlist._id id (db_playlists db) = Some p →
  newId e ∉ Track._id <$> db_tracks db →
  (User.role user = "ADMIN"%string ∨ User.hydrated user = false →
  ∃ track db'',
    fst (postTrack e id user (Some s) db) = Json track
    ∧ deleteTrack (newId e) user (snd (postTrack e id user (Some s) db))
      = (Json track, db'')
    ∧ db_tracks db'' = db_tracks db
    ∧ findById Playlist._id id (db_playlists db'')
      = Some {| Playlist._id := Playlist._id p;
                Playlist.img := Playlist.img p;
                Playlist.tracks := Playlist.tracks p ++ [newId e] |}
    ∧ findById Track._id (newId e) (db_tracks db'') = None)
  ∧ (User.role user ≠ "ADMIN"%string → User.hydrated user = true →
     ∃ track,
       fst (postTrack e id user (Some s) db) = Json track
       ∧ deleteTrack (newId e) user (snd (postTrack e id user (Some s) db))
         = (Throw {| message := "Dont have permission"; status := 403 |},
            snd (postTrack e id user (Some s) db))
       ∧ findById Track._id (newId e)
           (db_tracks (snd (postTrack e id user (Some s) db))) = Some track).
Proof.
  intros Hs Hp Hfresh. rewrite (postTrack_created _ _ _ _ _ _ Hs Hp).
  set (track := Track.Doc (newId e) s (Playlist.img p) (User.id user) id []
                  None (now e) : ITrack).
  assert (Hfound : findById Track._id (newId e) (db_tracks db ++ [track])
                   = Some track).
  { rewrite findById_app, (proj2 (findById_None Track._id _ _) Hfresh).
    unfold findById. simpl. by rewrite N.eqb_refl. }
  split.
  - intros Hok. eexists _, _. split; [reflexivity|]. simpl.
    rewrite deleteTrack_eq. cbn [db_tracks]. rewrite Hfound.
    assert (Hd : loose_neq (Track.author track) user
                 && negb (String.eqb (User.role user) "ADMIN") = false).
    { destruct (loose_neq (Track.author track) user
                && negb (String.eqb (User.role user) "ADMIN")) eqn:Hd;
        [|reflexivity].
      apply denied_spec in Hd. destruct Hd as [[Hh|Ha] Hr];
        destruct Hok as [Hadm|Hp']; try congruence.
      exfalso. apply Ha. reflexivity. }
    rewrite Hd. split; [reflexivity|]. cbn [db_tracks db_playlists].
    rewrite (removeOne_app_fresh Track._id (newId e) (db_tracks db) [] track)
      by auto.
    rewrite app_nil_r. split; [reflexivity|]. split.
    + rewrite (findById_updateOne Playlist._id id _ _ p); auto.
    + by apply findById_None.
  - intros Hr Hh. exists track. split; [reflexivity|]. simpl.
    split; [|exact Hfound].
    rewrite deleteTrack_eq. cbn [db_tracks]. rewrite Hfound.
    rewrite (proj2 (denied_spec track user)) by auto. reflexivity.
Qed.

Lemma create_then_delete_witness :
  ("tune"%string ≠ ""%string
   ∧ findById Playlist._id 1%N (db_playlists Sample.db) = Some Sample.playlist
   ∧ (newId Sample.clock ∉ Track._id <$> db_tracks Sample.db)
   ∧ (User.role Sample.alice_plain = "ADMIN"%string
      ∨ User.hydrated Sample.alice_plain = false))
  ∧ ∃ track db'',
      fst (postTrack Sample.clock 1%N Sample.alice_plain (Some "tune"%string)
             Sample.db)
        = Json track
      ∧ deleteTrack (newId Sample.clock) Sample.alice_plain
          (snd (postTrack Sample.clock 1%N Sample.alice_plain
                  (Some "tune"%string) Sample.db))
        = (Json track, db'')
      ∧ db_tracks db'' = db_tracks Sample.db
      ∧ findById Playlist._id 1%N (db_playlists db'')
        = Some {| Playlist._id := Playlist._id Sample.playlist;
                  Playlist.img := Playlist.img Sample.playlist;
                  Playlist.tracks :=
                    Playlist.tracks Sample.playlist ++ [newId Sample.clock] |}
      ∧ findById Track._id (newId Sample.clock) (db_tracks db'') = None.
Proof.
  assert (H1 : "tune"%string ≠ ""%string) by discriminate.
  assert (H2 : findById Playlist._id 1%N (db_playlists Sample.db)
               = Some Sample.playlist) by reflexivity.
  assert (H3 : newId Sample.clock ∉ Track._id <$> db_tracks Sample.db).
  { apply (bool_decide_unpack _). vm_compute. exact I. }
  assert (H4 : User.role Sample.alice_plain = "ADMIN"%string
               ∨ User.hydrated Sample.alice_plain = false)
    by (right; reflexivity).
  exact (conj (conj H1 (conj H2 (conj H3 H4)))
           (proj1 (create_then_delete Sample.clock 1%N Sample.alice_plain
                     "tune" Sample.playlist Sample.db H1 H2 H3) H4)).
Defined.

Lemma deleteTrack_done (id : ObjectId) (user : User.IUser) (db db' : Db)
    (t : ITrack) :
  deleteTrack id user db = (Json t, db') →
  findById Track._id id (db_tracks db) = Some t
  ∧ db' = {| db_tracks := removeOne Track._id id (db_tracks db);
             db_playlists := db_playlists db;
             db_users := db_users db |}.
Proof.
  rewrite deleteTrack_eq.
  destruct (findById Track._id id (db_tracks db)) as [t0|]; [|discriminate].
  destruct (loose_neq (Track.author t0) user
            && negb (String.eqb (User.role user) "ADMIN")); [discriminate|].
  intros [= -> <-]. auto.
Qed.

(** X15. With distinct track identities, a track that was deleted is gone
    for good: its identity is found no more, no page of any listing, for
    any viewer, carries it, and the identities left are still distinct. *)
Theorem deleted_track_is_gone (id : ObjectId) (user : User.IUser)
    (db db' : Db) (t : ITrack) :
  unique_track_ids db →
  deleteTrack id user db = (Json t, db') →
  findById Track._id id (db_tracks db') = None
  ∧ unique_track_ids db'
  ∧ ∀ s q viewer rows r,
      listing s q viewer db' = Json rows → r ∈ rows → Track._id r ≠ id.
Proof.
  intros Hu Hdel. apply deleteTrack_done in Hdel as [Ht ->]. simpl.
  destruct (removeOne_split Track._id id _ _ Ht)
    as (before & after & Hc & Hr & Hb).
  pose proof (findById_id _ _ _ _ Ht) as [Hid _].
  unfold unique_track_ids in *. simpl. rewrite Hr. rewrite Hc in Hu.
  rewrite fmap_app, fmap_cons in Hu.
  apply NoDup_app in Hu as (Hnb & Hdisj & Hna).
  apply NoDup_cons in Hna as [Hta Hna]. rewrite Hid in Hta.
  assert (Hgone : id ∉ Track._id <$> before ++ after).
  { rewrite fmap_app, elem_of_app. intros [Hin|Hin]; [|by apply Hta].
    by apply (findById_None Track._id id before). }
  split; [by apply findById_None|]. split.
  - rewrite fmap_app. apply NoDup_app. split; [exact Hnb|].
    split; [|exact Hna].
    intros x Hx Hx'. apply (Hdisj x Hx). by right.
  - intros s q viewer rows r Hl Hrow Heq.
    destruct (listing_rows s q viewer _ rows r Hl Hrow)
      as (t' & u & Ht' & _ & _ & _ & ->).
    cbn [db_tracks] in Ht'. apply Hgone.
    rewrite row_id in Heq. rewrite <- Heq.
    by apply list_elem_of_fmap_2.
Qed.

Lemma deleted_track_is_gone_witness :
  (unique_track_ids Sample.db
   ∧ deleteTrack 4%N Sample.boss Sample.db
     = (Json (Sample.track 4 101 [1]%N 13),
        snd (deleteTrack 4%N Sample.boss Sample.db)))
  ∧ findById Track._id 4%N
      (db_tracks (snd (deleteTrack 4%N Sample.boss Sample.db))) = None
  ∧ unique_track_ids (snd (deleteTrack 4%N Sample.boss Sample.db))
  ∧ ∀ s q viewer rows r,
      listing s q viewer (snd (deleteTrack 4%N Sample.boss Sample.db))
        = Json rows →
      r ∈ rows → Track._id r ≠ 4%N.
Proof.
  assert (H1 : unique_track_ids Sample.db).
  { unfold unique_track_ids. apply (bool_decide_unpack _). vm_compute.
    exact I. }
  assert (H2 : deleteTrack 4%N Sample.boss Sample.db
               = (Json (Sample.track 4 101 [1]%N 13),
                  snd (deleteTrack 4%N Sample.boss Sample.db)))
    by reflexivity.
  exact (conj (conj H1 H2)
           (deleted_track_is_gone 4%N Sample.boss Sample.db _ _ H1 H2)).
Defined.

(** X16. Whatever its outcome, [deleteTrack] leaves the playlists and the
    users as they were, so a playlist keeps its reference to a deleted
    track; every track with another identity is found as before, and the
    tracks that remain are tracks that were there, in their order. *)
Theorem deleteTrack_touches_one_track (id : ObjectId) (user : User.IUser)
    (db : Db) :
  db_playlists (snd (deleteTrack id user db)) = db_playlists db
  ∧ db_users (snd (deleteTrack id user db)) = db_users db
  ∧ (∀ id', id' ≠ id →
       findById Track._id id' (db_tracks (snd (deleteTrack id user db)))
       = findById Track._id id' (db_tracks db))
  ∧ db_tracks (snd (deleteTrack id user db)) `sublist_of` db_tracks db.
Proof.
  rewrite deleteTrack_eq.
  destruct (findById Track._id id (db_tracks db)) as [t|]; simpl; [|auto].
  destruct (loose_neq (Track.author t) user
            && negb (String.eqb (User.role user) "ADMIN")); simpl; [auto|].
  repeat split.
  - intros id' Hne. by apply findById_removeOne_ne.
  - generalize (db_tracks db). intros c.
    induction c as [|x c IH]; simpl; [constructor|].
    destruct (N.eqb (Track._id x) id); by constructor.
Qed.

(** X17. The liked-only listing follows the toggle.  After a user likes a
    track whose author is a stored user, a record of the track, flagged
    liked, is in that user's liked-only sequence; after they unlike a
    track, with distinct track identities in the store, no record of it
    is. *)
Theorem liked_listing_follows_toggle (id : ObjectId) (user : User.IUser)
    (db : Db) (t : ITrack) :
  findById Track._id id (db_tracks db) = Some t →
  (User.id user ∉ Track.liked t → stored_user (Track.author t) db →
   ∃ r, r ∈ full_sequence LikedOnly user (snd (putTrackLike id user db))
        ∧ Track._id r = id ∧ Track.liked r = true)
  ∧ (User.id user ∈ Track.liked t → unique_track_ids db →
     ∀ r, r ∈ full_sequence LikedOnly user (snd (putTrackLike id user db)) →
          Track._id r ≠ id).
Proof.
  intros Ht. destruct (putTrackLike_found id user db t Ht) as [H1 H2].
  pose proof (findById_id _ _ _ _ Ht) as [Hid _].
  pose proof (findById_id _ _ _ _ H2) as [_ Hin'].
  split.
  - intros Hx Hstored.
    destruct (stored_user_owner t db Hstored) as (u & Hu & Ho).
    set (t' := Track.set_liked (toggle (User.id user) (Track.liked t)) t)
      in *.
    exists (row LikedOnly user t' u). split; [|split; [exact Hid | reflexivity]].
    apply full_sequence_rows. exists t', u. split; [exact Hin'|].
    rewrite H1. simpl. split; [exact Hu|]. split; [|split; [exact Ho|reflexivity]].
    apply bool_decide_eq_true_2. subst t'. simpl. rewrite elem_of_toggle.
    left. auto.
  - intros Hx Huniq r Hr Heq.
    apply full_sequence_rows in Hr as (t' & u & Ht' & _ & Hf & _ & ->).
    rewrite row_id in Heq. simpl in Hf. apply bool_decide_eq_true_1 in Hf.
    assert (Huniq' : NoDup (Track._id
                              <$> db_tracks (snd (putTrackLike id user db)))).
    { rewrite H1. simpl. rewrite (updateOne_fmap Track._id); auto. }
    assert (Heq' : t' = Track.set_liked (toggle (User.id user) (Track.liked t)) t).
    { eapply (NoDup_fmap_eq Track._id); eauto. simpl. congruence. }
    rewrite Heq' in Hf. simpl in Hf. rewrite elem_of_toggle in Hf.
    intuition congruence.
Qed.

Lemma liked_listing_follows_toggle_witness :
  findById Track._id 1%N (db_tracks Sample.db)
    = Some (Sample.track 1 100 [1; 2; 3; 4; 5]%N 10)
  ∧ ((User.id Sample.me
      ∉ Track.liked (Sample.track 1 100 [1; 2; 3; 4; 5]%N 10))
     ∧ stored_user (Track.author (Sample.track 1 100 [1; 2; 3; 4; 5]%N 10))
         Sample.db)
  ∧ ∃ r, r ∈ full_sequence LikedOnly Sample.me
               (snd (putTrackLike 1%N Sample.me Sample.db))
         ∧ Track._id r = 1%N ∧ Track.liked r = true.
Proof.
  assert (H1 : findById Track._id 1%N (db_tracks Sample.db)
               = Some (Sample.track 1 100 [1; 2; 3; 4; 5]%N 10))
    by reflexivity.
  assert (H2 : User.id Sample.me
               ∉ Track.liked (Sample.track 1 100 [1; 2; 3; 4; 5]%N 10)).
  { apply (bool_decide_unpack _). vm_compute. exact I. }
  assert (H3 : stored_user
                 (Track.author (Sample.track 1 100 [1; 2; 3; 4; 5]%N 10))
                 Sample.db).
  { exists (User.to_document Sample.alice). split.
    - apply (list_elem_of_lookup_2 _ 0%nat). reflexivity.
    - vm_compute. reflexivity. }
  exact (conj H1 (conj (conj H2 H3)
           (proj1 (liked_listing_follows_toggle 1%N Sample.me Sample.db _ H1)
              H2 H3))).
Defined.

(** X18. A toggle never changes a like of another user: for every track
    and every user other than the requester, membership among the likers
    is the same before and after, so no other user's liked flag or
    liked-only listing moves. *)
Theorem toggle_leaves_other_users (id : ObjectId) (user : User.IUser)
    (db : Db) (other : ObjectId) :
  other ≠ User.id user →
  (liked_by other <$> db_tracks (snd (putTrackLike id user db)))
  = (liked_by other <$> db_tracks db).
Proof.
  intros Hne. rewrite putTrackLike_eq.
  destruct (findById Track._id id (db_tracks db)) as [t|]; simpl;
    [|reflexivity].
  apply updateOne_fmap. intros x. unfold liked_by. simpl.
  apply bool_decide_ext.
  rewrite elem_of_toggle. intuition congruence.
Qed.

Lemma toggle_leaves_other_users_witness :
  3%N ≠ User.id Sample.me
  ∧ (liked_by 3%N <$> db_tracks (snd (putTrackLike 3%N Sample.me Sample.db)))
    = (liked_by 3%N <$> db_tracks Sample.db).
Proof.
  assert (H : 3%N ≠ User.id Sample.me) by discriminate.
  exact (conj H (toggle_leaves_other_users 3%N Sample.me Sample.db 3%N H)).
Defined.

(** ** The shape of the avatar URL *)

(** X19. For a user with an email, whatever the email and whatever safe
    integer the size, the avatar URL is the gravatar prefix, then exactly
    32 lowercase hexadecimal digits, then the size in decimal digits and
    the retro default. *)
Theorem gravatar_hash_shape (this : User.UserDocument)
    (size : option User.safe_integer) (e : string) :
  User.email this = Some e → e ≠ ""%string →
  ∃ h,
    User.gravatar this size
    = "https://gravatar.com/avatar/" +:+ h +:+ "?s="
        +:+ pretty (User.int_value (default User.size_200 size))
        +:+ "&d=retro"
    ∧ String.length h = 32%nat
    ∧ forallb is_hex_digit (list_ascii_of_string h) = true.
Proof.
  intros He Hne. exists (Md5.md5_hex e). split; [|apply md5_hex_shape].
  unfold User.gravatar. rewrite He. simpl.
  destruct (String.eqb_spec e ""); [contradiction | reflexivity].
Qed.

Lemma gravatar_hash_shape_witness :
  (User.email Sample.alice = Some "Alice@Example.com"%string
   ∧ "Alice@Example.com"%string ≠ ""%string)
  ∧ ∃ h,
      User.gravatar Sample.alice (Some Sample.size_64)
      = "https://gravatar.com/avatar/" +:+ h +:+ "?s="
          +:+ pretty (User.int_value
                        (default User.size_200 (Some Sample.size_64)))
          +:+ "&d=retro"
      ∧ String.length h = 32%nat
      ∧ forallb is_hex_digit (list_ascii_of_string h) = true.
Proof.
  assert (H1 : User.email Sample.alice = Some "Alice@Example.com"%string)
    by reflexivity.
  assert (H2 : "Alice@Example.com"%string ≠ ""%string) by discriminate.
  exact (conj (conj H1 H2)
           (gravatar_hash_shape Sample.alice (Some Sample.size_64) _ H1 H2)).
Defined.
